(** * WebRTC address detector: detection-and-resolution pipeline

    A shallow embedding of the core of [enhanced_ip_geolocator.user.js]:
    the storage helpers [getStoredValue] / [setStoredValue], the
    [GeolocationService] ([getGeolocation], [updateHistory]), the
    [addIceCandidate] hook installed by [WebRTCDetector.patchAddIceCandidate],
    [createTableHTML] and the state, views and listeners of the
    [PanelManager].

    Conventions of the embedding.
    - A JavaScript computation that may throw returns a [result]; a
      [try { .. } catch] is the combinator [try_catch].
    - Mutable objects (the userscript storage, the service's [ipHistory]
      and [lastReportedIP], the detector's [detectedIps]) are fields of an
      explicit [World] that every operation threads through.
    - The host environment (which [GM_*] functions exist and whether they
      raise, what [Intl.DisplayNames.of] answers) is an explicit argument
      [Env]; the clock is a [now] string handed to the call that reads it.
    - Strings are [string]; the regular expressions run on their
      characters ([list ascii]), one [ascii] per code unit: candidate
      records are SDP lines, whose code units are below 256.
    - The transport's answer to a lookup is an event of its own ([EvLoad],
      [EvError]) that runs the callback of [getGeolocation] on the world
      as it is then.
    - The storage maps keys to values; a type of values comes with the
      test for JavaScript's [undefined], which no value the script stores
      passes.
    - Of the panel the model keeps what the script reads and writes of
      it; the layout the browser reports is an argument of the listener
      that reads it. Console output, the style sheet and the [Blocker]
      are not modelled.

    Part I is the program, Part II the vocabulary of the properties,
    Part III the properties and their proofs. *)

From Stdlib Require Import ZArith List String Ascii Bool Lia.
From stdpp Require Import base option list gmap strings.

(** * Part I: the program *)

(** ** Exceptions and state

    [M S A] is a computation over a mutable state [S] that returns an [A]
    or throws; what it did to the state before throwing stays done. *)

Inductive exn :=
| TypeError
| RangeError
| SyntaxError
| HostError.

Inductive result (A : Type) :=
| Ok (a : A)
| Throw (e : exn).
Arguments Ok {A} a.
Arguments Throw {A} e.

Definition M (S A : Type) : Type := S → result A * S.

Definition ret {S A} (a : A) : M S A := λ s, (Ok a, s).

Definition throw {S A} (e : exn) : M S A := λ s, (Throw e, s).

Definition bind {S A B} (m : M S A) (f : A → M S B) : M S B :=
  λ s, match m s with
       | (Ok a, s') => f a s'
       | (Throw e, s') => (Throw e, s')
       end.

Notation "'let!' x ':=' m 'in' k" := (bind m (λ x, k))
  (at level 10, x name, m at level 100, k at level 200).
Notation "m ';;' k" := (bind m (λ _, k))
  (at level 100, k at level 200, right associativity).

(** [try { body } catch (e) { handler e }] *)
Definition try_catch {S A} (body : M S A) (handler : exn → M S A) : M S A :=
  λ s, match body s with
       | (Ok a, s') => (Ok a, s')
       | (Throw e, s') => handler e s'
       end.

Definition get {S} : M S S := λ s, (Ok s, s).

Definition put {S} (s : S) : M S unit := λ _, (Ok tt, s).

Definition lift {S A} (r : result A) : M S A := λ s, (r, s).

Definition returns {A} (r : result A) : Prop := ∃ a, r = Ok a.

(** ** StateStore: [getStoredValue] and [setStoredValue]

    The userscript storage behind [GM_getValue] / [GM_setValue] is a finite
    map from keys to stored values; [None] on lookup is JavaScript's
    [undefined] (nothing stored under the key). *)

(** What [typeof GM_x === 'function'] and a call of [GM_x] give. *)
Inductive gm_fn :=
| GM_undefined      (* not granted: typeof is not 'function' *)
| GM_raises         (* the function exists and its call throws *)
| GM_works.         (* the function exists and does its work *)

Record Backend := {
  GM_getValue_fn : gm_fn;
  GM_setValue_fn : gm_fn;
}.

Definition available : Backend :=
  {| GM_getValue_fn := GM_works; GM_setValue_fn := GM_works |}.
Definition raising : Backend :=
  {| GM_getValue_fn := GM_raises; GM_setValue_fn := GM_raises |}.
Definition ungranted : Backend :=
  {| GM_getValue_fn := GM_undefined; GM_setValue_fn := GM_undefined |}.

(** A call [GM_getValue(key)], made only when the function exists. *)
Definition GM_getValue {V} (be : Backend) (key : string)
  : M (gmap string V) (option V) :=
  match GM_getValue_fn be with
  | GM_works => let! store := get in ret (store !! key)
  | _ => throw HostError
  end.

(** A call [GM_setValue(key, value)], made only when the function exists. *)
Definition GM_setValue {V} (be : Backend) (key : string) (value : V)
  : M (gmap string V) unit :=
  match GM_setValue_fn be with
  | GM_works => let! store := get in put (<[key := value]> store)
  | _ => throw HostError
  end.

(** Which values of a type are JavaScript's [undefined]. [GM_getValue]
    gives [undefined] for a key nothing is stored under, and [undefined]
    may itself be what was stored. *)
Class Undefinable (V : Type) := is_undefined : V → bool.

(** The test [stored !== undefined] fails on a key nothing is stored under
    and on a stored [undefined] alike. *)
Definition getStoredValue {V} `{Undefinable V} (be : Backend) (key : string)
  (defaultValue : V) : M (gmap string V) V :=
  try_catch
    (match GM_getValue_fn be with
     | GM_undefined => ret defaultValue
     | _ =>
         let! stored := GM_getValue be key in
         ret (match stored with
              | Some v => if is_undefined v then defaultValue else v
              | None => defaultValue
              end)
     end)
    (λ _, ret defaultValue).

Definition setStoredValue {V} (be : Backend) (key : string) (value : V)
  : M (gmap string V) unit :=
  try_catch
    (match GM_setValue_fn be with
     | GM_undefined => ret tt
     | _ => GM_setValue be key value
     end)
    (λ _, ret tt).

(** ** JavaScript values of the lookup response

    What [JSON.parse] can give, and [undefined] for a property that is not
    there. Numbers are kept as integers: the service reads them for their
    truth value only. *)

#[warnings="-register-all"]
Inductive jsval :=
| JUndefined
| JNull
| JBool (b : bool)
| JNum (n : Z)
| JStr (s : string)
| JArr (items : list jsval)
| JObj (fields : list (string * jsval)).

#[global] Instance jsval_undefinable : Undefinable jsval :=
  λ v, match v with
       | JUndefined => true
       | _ => false
       end.

(** ToBoolean *)
Definition truthy (v : jsval) : bool :=
  match v with
  | JUndefined | JNull => false
  | JBool b => b
  | JNum n => negb (n =? 0)%Z
  | JStr s => negb (String.eqb s "")
  | JArr _ | JObj _ => true
  end.

(** The value bound to [name] in the fields of a parsed object; a later
    binding of the same name overwrites an earlier one. *)
Fixpoint field (name : string) (fields : list (string * jsval)) : jsval :=
  match fields with
  | [] => JUndefined
  | (n, v) :: rest =>
      match field name rest with
      | JUndefined => if String.eqb n name then v else JUndefined
      | later => later
      end
  end.

(** [v.name] for the names the service reads ([error], [ip], [country], ..):
    a TypeError on [null] and [undefined], [undefined] on the other values
    that are not objects. *)
Definition prop (v : jsval) (name : string) : result jsval :=
  match v with
  | JUndefined | JNull => Throw TypeError
  | JObj fields => Ok (field name fields)
  | _ => Ok JUndefined
  end.

(** [a || b] *)
Definition or_else (a b : jsval) : jsval := if truthy a then a else b.

(** ** Regular expressions

    The two patterns of the hook use literals, the classes [\s] and [[0-9]],
    greedy bounded repetition and groups. [run] is the backtracking matcher:
    [run r s k] matches [r] at the front of [s] and hands the rest to the
    continuation [k], trying the alternatives in priority order until [k]
    accepts. *)

Inductive regex :=
| Eps
| Lit (c : ascii)
| Range (lo hi : ascii)          (* [lo-hi] *)
| Space                          (* \s *)
| Seq (r1 r2 : regex)
| Rep (r : regex) (lo hi : nat)  (* r{lo,hi}, greedy *)
| Group (r : regex).             (* (r) and (?:r) *)

Definition in_range (lo hi c : ascii) : bool :=
  (nat_of_ascii lo <=? nat_of_ascii c) && (nat_of_ascii c <=? nat_of_ascii hi).

(** White space among the code units below 256: TAB, LF, VT, FF, CR, SP, NBSP. *)
Definition is_space (c : ascii) : bool :=
  let n := nat_of_ascii c in
  ((9 <=? n) && (n <=? 13)) || (n =? 32) || (n =? 160).

Definition matcher := list ascii → (list ascii → option (list ascii)) → option (list ascii).

Definition one (p : ascii → bool) : matcher :=
  fun s k =>
    match s with
    | c :: s' => if p c then k s' else None
    | [] => None
    end.

Fixpoint rep (m : matcher) (lo hi : nat) : matcher :=
  fun s k =>
    match hi with
    | O => k s
    | S hi' =>
        match m s (fun s' => rep m (pred lo) hi' s' k) with
        | Some r => Some r
        | None => if (lo =? 0) then k s else None
        end
    end.

Fixpoint run (r : regex) : matcher :=
  match r with
  | Eps => fun s k => k s
  | Lit c => one (Ascii.eqb c)
  | Range lo hi => one (in_range lo hi)
  | Space => one is_space
  | Seq r1 r2 => fun s k => run r1 s (fun s' => run r2 s' k)
  | Rep r lo hi => rep (run r) lo hi
  | Group r => run r
  end.

(** The first match of [r] in [s], scanning start positions from [i] on:
    its index and its text. *)
Fixpoint search (r : regex) (s : list ascii) (i : nat) : option (nat * list ascii) :=
  match run r s Some with
  | Some rest => Some (i, take (length s - length rest) s)
  | None =>
      match s with
      | [] => None
      | _ :: s' => search r s' (S i)
      end
  end.

(** [s.match(r)] for a pattern without the global flag: [None] is [null];
    otherwise the index of the match and the matched text. *)
Definition str_match (s : string) (r : regex) : option (nat * string) :=
  match search r (list_ascii_of_string s) 0 with
  | Some (i, m) => Some (i, string_of_list_ascii m)
  | None => None
  end.

(** The literals of [s] in a row. *)
Fixpoint Str (s : string) : regex :=
  match s with
  | EmptyString => Eps
  | String c s' => Seq (Lit c) (Str s')
  end.

(** [/typ\s(srflx)/] *)
Definition re_typ_srflx : regex :=
  Seq (Str "typ") (Seq Space (Group (Str "srflx"))).

(** [[0-9]{1,3}] and [(?:\.[0-9]{1,3})] *)
Definition digits_1_3 : regex := Rep (Range "0" "9") 1 3.

Definition dot_digits : regex := Group (Seq (Lit ".") digits_1_3).

(** [/([0-9]{1,3}(?:\.[0-9]{1,3}){3})/]; its group 1 encloses the whole
    pattern, so [ipMatch[1]] is the matched text. *)
Definition re_ipv4 : regex :=
  Group (Seq digits_1_3 (Rep dot_digits 3 3)).

(** ** Configuration *)

Definition API_KEY : string := "072a896dc04088".
Definition API_URL : string := "https://ipinfo.io/".
Definition STORAGE_KEY_STATE : string := "manusGeoPanelState".
Definition STORAGE_KEY_IP : string := "manusGeoLastIP".
Definition STORAGE_KEY_HISTORY : string := "manusGeoIPHistory".
Definition MAX_IP_HISTORY : nat := 5.

(** ** Data of the GeolocationService *)

(** The [data] object built from a lookup response; the field names stand
    for the keys "IP Address", "Country", .., "VPN/Proxy". *)
Record GeoData := {
  IP_Address : jsval;
  Country : jsval;
  Region : jsval;
  City : jsval;
  Location : jsval;
  ISP : jsval;
  Hostname : jsval;
  VPN_Proxy : jsval;
}.

(** An entry [{ ip, data, timestamp }] of [ipHistory]. *)
Record HistoryEntry := {
  ip : string;
  data : GeoData;
  timestamp : string;
}.

(** What the script keeps in the userscript storage: the history under
    [STORAGE_KEY_HISTORY], the last address under [STORAGE_KEY_IP], the
    panel state under [STORAGE_KEY_STATE]; [StNull] is [null], the default
    the service asks for when no address is stored. *)
Inductive stored :=
| StNull
| StAddress (address : string)
| StHistory (history : list HistoryEntry)
| StPanel (x y : Z) (collapsed historyView : bool).

(** None of these is [undefined]. *)
#[global] Instance stored_undefinable : Undefinable stored := λ _, false.

(** The host the script runs in. *)
Record Env := {
  backend : Backend;
  has_GM_xmlhttpRequest : bool;          (* typeof GM_xmlhttpRequest === 'function' *)
  regionNames_of : jsval → result jsval; (* Intl.DisplayNames.prototype.of *)
}.

(** The mutable state of one page load: the storage, the two fields of the
    GeolocationService and the detector's session set. *)
Record World := {
  storage : gmap string stored;
  ipHistory : list HistoryEntry;
  lastReportedIP : option string;
  detectedIps : gset string;
}.

Definition set_storage (s : gmap string stored) (w : World) : World :=
  {| storage := s; ipHistory := ipHistory w;
     lastReportedIP := lastReportedIP w; detectedIps := detectedIps w |}.

Definition set_ipHistory (h : list HistoryEntry) (w : World) : World :=
  {| storage := storage w; ipHistory := h;
     lastReportedIP := lastReportedIP w; detectedIps := detectedIps w |}.

Definition set_lastReportedIP (a : option string) (w : World) : World :=
  {| storage := storage w; ipHistory := ipHistory w;
     lastReportedIP := a; detectedIps := detectedIps w |}.

Definition set_detectedIps (d : gset string) (w : World) : World :=
  {| storage := storage w; ipHistory := ipHistory w;
     lastReportedIP := lastReportedIP w; detectedIps := d |}.

(** A storage operation run on the storage of the world. *)
Definition on_storage {A} (m : M (gmap string stored) A) : M World A :=
  λ w, let '(r, s) := m (storage w) in (r, set_storage s w).

(** ** GeolocationService *)

(** The shape [ipHistory] and [lastReportedIP] take from the stored value.
    Both keys are written by [updateHistory] only, which stores a history
    under the first and an address under the second; a stored value of
    another shape is outside this model and is read as the default. *)
Definition as_history (v : stored) : list HistoryEntry :=
  match v with
  | StHistory h => h
  | _ => []
  end.

Definition as_address (v : stored) : option string :=
  match v with
  | StAddress a => Some a
  | _ => None
  end.

(** The constructor: the two fields read from the storage. *)
Definition new_GeolocationService (env : Env)
  : M (gmap string stored) (list HistoryEntry * option string) :=
  let! h := getStoredValue (backend env) STORAGE_KEY_HISTORY (StHistory []) in
  let! a := getStoredValue (backend env) STORAGE_KEY_IP StNull in
  ret (as_history h, as_address a).

(** [this.ipHistory.pop()] *)
Definition pop {A} (l : list A) : list A := removelast l.

Definition with_timestamp (item : HistoryEntry) (t : string) : HistoryEntry :=
  {| ip := ip item; data := data item; timestamp := t |}.

(** [updateHistory(ip, data)]; [now] is [new Date().toLocaleString()].
    [list_find] is [findIndex] together with the element found, [None]
    standing for the index -1. *)
Definition updateHistory (env : Env) (now : string) (ip0 : string) (data0 : GeoData)
  : M World unit :=
  let! w := get in
  let existing := list_find (λ item, ip item = ip0) (ipHistory w) in
  let h1 :=
    match existing with
    | Some (existingIndex, item) =>
        with_timestamp item now :: delete existingIndex (ipHistory w)
    | None =>
        {| ip := ip0; data := data0; timestamp := now |} :: ipHistory w
    end in
  let h2 := if MAX_IP_HISTORY <? length h1 then pop h1 else h1 in
  put (set_ipHistory h2 w) ;;
  on_storage (setStoredValue (backend env) STORAGE_KEY_HISTORY (StHistory h2)) ;;
  (let! w' := get in put (set_lastReportedIP (Some ip0) w')) ;;
  on_storage (setStoredValue (backend env) STORAGE_KEY_IP (StAddress ip0)).

(** The body of the [try] in [onload], up to the value handed to
    [resolve]: [None] is [null]. [json] is what [JSON.parse] made of the
    response text. *)
Definition build_data (env : Env) (json : jsval) : result (option GeoData) :=
  match prop json "error" with
  | Throw e => Throw e
  | Ok err =>
      if truthy err then Ok None
      else
        match prop json "ip", prop json "country", prop json "region",
              prop json "city", prop json "loc", prop json "org",
              prop json "hostname", prop json "bogon" with
        | Ok jip, Ok jcountry, Ok jregion, Ok jcity, Ok jloc, Ok jorg,
          Ok jhostname, Ok jbogon =>
            match (if truthy jcountry then regionNames_of env jcountry
                   else Ok (JStr "N/A")) with
            | Throw e => Throw e
            | Ok country =>
                Ok (Some {| IP_Address := or_else jip (JStr "N/A");
                            Country := country;
                            Region := or_else jregion (JStr "N/A");
                            City := or_else jcity (JStr "N/A");
                            Location := or_else jloc (JStr "N/A");
                            ISP := or_else jorg (JStr "N/A");
                            Hostname := or_else jhostname (JStr "N/A");
                            VPN_Proxy := if truthy jbogon then JStr "Yes (Bogon)"
                                         else JStr "No" |})
            end
        | _, _, _, _, _, _, _, _ => Throw TypeError
        end
  end.

(** The [onload] callback of the request for [ip0]; [parsed] is the outcome
    of [JSON.parse(response.responseText)], a [Throw] when the text is not
    JSON. The value returned is the one the promise is resolved with. *)
Definition onload (env : Env) (now : string) (ip0 : string) (parsed : result jsval)
  : M World (option GeoData) :=
  try_catch
    (let! json := lift parsed in
     let! built := lift (build_data env json) in
     match built with
     | None => ret None
     | Some d => updateHistory env now ip0 d ;; ret (Some d)
     end)
    (λ _, ret None).

(** The [onerror] callback. *)
Definition onerror (ip0 : string) : M World (option GeoData) := ret None.

(** What the call [getGeolocation(ip)] does before it returns its promise. *)
Inductive started :=
| Settled (v : option GeoData)   (* the promise is already resolved with v *)
| Requested (url : string).      (* GM_xmlhttpRequest got this url *)

Definition getGeolocation_start (env : Env) (ip0 : string) : started :=
  if String.eqb ip0 "" then Settled None
  else if negb (has_GM_xmlhttpRequest env) then Settled None
  else Requested (API_URL +:+ ip0 +:+ "?token=" +:+ API_KEY).

(** How the transport answers a request. *)
Inductive response :=
| OnLoad (parsed : result jsval)
| OnError.

(** [getGeolocation(ip)] when the transport answers with [reply]: the
    value its promise is resolved with. *)
Definition getGeolocation (env : Env) (now : string) (ip0 : string) (reply : response)
  : M World (option GeoData) :=
  match getGeolocation_start env ip0 with
  | Settled v => ret v
  | Requested _ =>
      match reply with
      | OnLoad parsed => onload env now ip0 parsed
      | OnError => onerror ip0
      end
  end.

(** ** WebRTCDetector: the [addIceCandidate] hook *)

(** The first argument of [addIceCandidate]. *)
Inductive ice_arg :=
| IceNullish                                (* null or undefined *)
| IceObject (candidate : option string).    (* an object and its [candidate] *)

(** [ice.candidate] *)
Definition candidate_of (ice : ice_arg) : result (option string) :=
  match ice with
  | IceNullish => Throw TypeError
  | IceObject c => Ok c
  end.

(** CandidateClassifier: from the candidate record to the address of an
    actionable (server-reflexive, IPv4-shaped) candidate. *)
Definition classify (record : option string) : option string :=
  let cand := default "" record in
  let typeMatch := str_match cand re_typ_srflx in
  let ipMatch := str_match cand re_ipv4 in
  match typeMatch, ipMatch with
  | Some _, Some (_, m1) => Some m1
  | _, _ => None
  end.

(** NoveltyFilter: the test of the inner [if] and, when it holds, the
    [detectedIps.add(ip)] of its body. *)
Definition admit_address (ip0 : string) : M World bool :=
  let! w := get in
  if bool_decide (Some ip0 ≠ lastReportedIP w) && bool_decide (ip0 ∉ detectedIps w)
  then put (set_detectedIps ({[ip0]} ∪ detectedIps w) w) ;; ret true
  else ret false.

(** The body of the hook's [try]: the url handed to [GM_xmlhttpRequest],
    if a request was made. *)
Definition detect (env : Env) (ice : ice_arg) : M World (option string) :=
  let! record := lift (candidate_of ice) in
  match classify record with
  | Some ip0 =>
      let! admitted := admit_address ip0 in
      if admitted then
        match getGeolocation_start env ip0 with
        | Requested url => ret (Some url)
        | Settled _ => ret None
        end
      else ret None
  | None => ret None
  end.

(** The hook runs on the world paired with the log of the calls of the
    original [addIceCandidate]. *)
Definition on_world {L A} (m : M World A) : M (World * L) A :=
  λ '(w, l), let '(r, w') := m w in (r, (w', l)).

(** [origAdd.call(this, ice, ...rest)]: the call is logged and gives what
    the original function gives, a value or an exception. *)
Definition call_original {PC Arg Ret : Type}
  (origAdd : PC → ice_arg → list Arg → result Ret)
  (this : PC) (ice : ice_arg) (rest : list Arg)
  : M (World * list (PC * ice_arg * list Arg)) Ret :=
  λ '(w, calls), (origAdd this ice rest, (w, calls ++ [(this, ice, rest)])).

(** The replacement of [addIceCandidate]: detection inside [try]/[catch],
    then the original function on the same receiver and arguments. *)
Definition addIceCandidate {PC Arg Ret : Type}
  (origAdd : PC → ice_arg → list Arg → result Ret)
  (env : Env) (this : PC) (ice : ice_arg) (rest : list Arg)
  : M (World * list (PC * ice_arg * list Arg)) Ret :=
  try_catch (on_world (detect env ice) ;; ret tt) (λ _, ret tt) ;;
  call_original origAdd this ice rest.

(** ** The page as an event system *)

Inductive event :=
| EvCandidate (ice : ice_arg)        (* the page calls addIceCandidate(ice) *)
| EvLoad (ip0 : string) (parsed : result jsval) (now : string)
| EvError (ip0 : string).

Definition handle (env : Env) (e : event) : M World unit :=
  match e with
  | EvCandidate ice => try_catch (detect env ice ;; ret tt) (λ _, ret tt)
  | EvLoad ip0 parsed now => onload env now ip0 parsed ;; ret tt
  | EvError ip0 => onerror ip0 ;; ret tt
  end.

Fixpoint handle_all (env : Env) (es : list event) : M World unit :=
  match es with
  | [] => ret tt
  | e :: es' => handle env e ;; handle_all env es'
  end.

(** [main]: a page load builds the service from the storage and a detector
    with an empty session set. *)
Definition main (env : Env) (store : gmap string stored) : result World :=
  match new_GeolocationService env store with
  | (Ok (h, a), store') =>
      Ok {| storage := store'; ipHistory := h; lastReportedIP := a; detectedIps := ∅ |}
  | (Throw e, _) => Throw e
  end.

(** ** createTableHTML

    [dq] is the double quote and [nl] the line feed of the source's string
    and template literals. [toText] is what a template literal makes of a
    value ([${val}]), the host's conversion to a string; keys, addresses
    and timestamps are strings already. An object is given by its entries,
    in the order [Object.entries] lists them. *)

Definition dq : string := String (ascii_of_nat 34) "".
Definition nl : string := String (ascii_of_nat 10) "".

Definition createTableHTML (toText : jsval → string) (dataObj : list (string * jsval))
  : string :=
  let html := "<table><tbody>" in
  let html :=
    foldl (λ html '(key, val),
             html +:+ "<tr><th>" +:+ key +:+ "</th><td>" +:+ toText val +:+ "</td></tr>")
          html dataObj in
  html +:+ "</tbody></table>".

(** [Object.entries(data)] of the object [getGeolocation] builds: its eight
    keys in the order of the object literal. *)
Definition entries (d : GeoData) : list (string * jsval) :=
  [ ("IP Address", IP_Address d); ("Country", Country d); ("Region", Region d);
    ("City", City d); ("Location", Location d); ("ISP", ISP d);
    ("Hostname", Hostname d); ("VPN/Proxy", VPN_Proxy d) ].

(** ** PanelManager *)

(** [currentState]: the fields [x], [y], [collapsed], [historyView].
    Pixels are integers. *)
Record PanelState := {
  state_x : Z;
  state_y : Z;
  state_collapsed : bool;
  state_historyView : bool;
}.

(** What the script reads and writes of the panel element and its
    children: [panel.parentElement] (is it attached),
    [panel.classList.contains('collapsed')], the [textContent] of the
    toggle button, [historyButton.style.color], [panel.style.left] and
    [.top] (the number before [px]; [None] before the first assignment),
    [panel.style.transition] and [content.innerHTML]. *)
Record PanelView := {
  parentElement : bool;
  classList_collapsed : bool;
  toggle_textContent : string;
  historyButton_color : string;
  style_left : option Z;
  style_top : option Z;
  style_transition : string;
  content_innerHTML : string;
}.

(** The layout the browser reports when a listener runs. *)
Record Layout := {
  offsetLeft : Z;
  offsetTop : Z;
  offsetWidth : Z;
  offsetHeight : Z;
  innerWidth : Z;
  innerHeight : Z;
}.

(** The fields of a PanelManager; [header], [content] and [historyButton]
    are set together with [panel] and are [null] exactly when it is. *)
Record PanelManager := {
  panel : option PanelView;
  currentState : PanelState;
  isDragging : bool;
  dragOffsetX : Z;
  dragOffsetY : Z;
}.

Definition set_collapsed (c : bool) (v : PanelView) : PanelView :=
  {| parentElement := parentElement v;
     classList_collapsed := c;
     toggle_textContent := if c then "+" else "_";
     historyButton_color := historyButton_color v;
     style_left := style_left v; style_top := style_top v;
     style_transition := style_transition v;
     content_innerHTML := content_innerHTML v |}.

Definition set_color (c : string) (v : PanelView) : PanelView :=
  {| parentElement := parentElement v;
     classList_collapsed := classList_collapsed v;
     toggle_textContent := toggle_textContent v;
     historyButton_color := c;
     style_left := style_left v; style_top := style_top v;
     style_transition := style_transition v;
     content_innerHTML := content_innerHTML v |}.

Definition set_position (left top : Z) (v : PanelView) : PanelView :=
  {| parentElement := parentElement v;
     classList_collapsed := classList_collapsed v;
     toggle_textContent := toggle_textContent v;
     historyButton_color := historyButton_color v;
     style_left := Some left; style_top := Some top;
     style_transition := style_transition v;
     content_innerHTML := content_innerHTML v |}.

Definition set_transition (t : string) (v : PanelView) : PanelView :=
  {| parentElement := parentElement v;
     classList_collapsed := classList_collapsed v;
     toggle_textContent := toggle_textContent v;
     historyButton_color := historyButton_color v;
     style_left := style_left v; style_top := style_top v;
     style_transition := t;
     content_innerHTML := content_innerHTML v |}.

Definition set_innerHTML (html : string) (v : PanelView) : PanelView :=
  {| parentElement := parentElement v;
     classList_collapsed := classList_collapsed v;
     toggle_textContent := toggle_textContent v;
     historyButton_color := historyButton_color v;
     style_left := style_left v; style_top := style_top v;
     style_transition := style_transition v;
     content_innerHTML := html |}.

Definition set_panel (v : option PanelView) (p : PanelManager) : PanelManager :=
  {| panel := v; currentState := currentState p; isDragging := isDragging p;
     dragOffsetX := dragOffsetX p; dragOffsetY := dragOffsetY p |}.

Definition set_currentState (st : PanelState) (p : PanelManager) : PanelManager :=
  {| panel := panel p; currentState := st; isDragging := isDragging p;
     dragOffsetX := dragOffsetX p; dragOffsetY := dragOffsetY p |}.

Definition set_isDragging (b : bool) (p : PanelManager) : PanelManager :=
  {| panel := panel p; currentState := currentState p; isDragging := b;
     dragOffsetX := dragOffsetX p; dragOffsetY := dragOffsetY p |}.

Definition set_dragOffset (dx dy : Z) (p : PanelManager) : PanelManager :=
  {| panel := panel p; currentState := currentState p; isDragging := isDragging p;
     dragOffsetX := dx; dragOffsetY := dy |}.

Definition modify {S} (f : S → S) : M S unit := λ s, (Ok tt, f s).

(** [this.panel] where a property of it is read or written: a [TypeError]
    when it is [null]. The same holds for [this.content] and
    [this.historyButton]. *)
Definition the_panel : M PanelManager PanelView :=
  let! p := get in
  match panel p with
  | Some v => ret v
  | None => throw TypeError
  end.

Definition on_view (f : PanelView → PanelView) : M PanelManager unit :=
  let! v := the_panel in modify (set_panel (Some (f v))).

(** A call of an [async] function whose promise nobody awaits: an
    exception inside it rejects that promise and goes no further. The
    value is the list of the addresses whose lookup the call awaits. *)
Definition not_awaited (m : M PanelManager (list string)) : M PanelManager (list string) :=
  try_catch m (λ _, ret []).

(** A panel operation that reads the GeolocationService. *)
Definition on_panel {A} (m : World → M PanelManager A) : M (World * PanelManager) A :=
  λ '(w, p), let '(r, p') := m w p in (r, (w, p')).

Definition stored_state (st : PanelState) : stored :=
  StPanel (state_x st) (state_y st) (state_collapsed st) (state_historyView st).

(** The state read from the stored value; under [STORAGE_KEY_STATE] the
    script stores panel states only, a value of another shape is outside
    this model and is read as the default. *)
Definition as_state (defaultValue : PanelState) (v : stored) : PanelState :=
  match v with
  | StPanel x y c h =>
      {| state_x := x; state_y := y; state_collapsed := c; state_historyView := h |}
  | _ => defaultValue
  end.

(** The constructor; [width] is [window.innerWidth]. *)
Definition new_PanelManager (env : Env) (width : Z)
  : M (gmap string stored) PanelManager :=
  let defaultValue :=
    {| state_x := width - 320; state_y := 10;
       state_collapsed := false; state_historyView := false |} in
  let! v := getStoredValue (backend env) STORAGE_KEY_STATE (stored_state defaultValue) in
  ret {| panel := None; currentState := as_state defaultValue v;
         isDragging := false; dragOffsetX := 0; dragOffsetY := 0 |}.

(** [createPanel], run when [document.body] exists: the element is built,
    attached, and its parts are looked up. *)
Definition createPanel : M PanelManager unit :=
  modify (set_panel (Some
    {| parentElement := true;
       classList_collapsed := false;
       toggle_textContent := "_";
       historyButton_color := "";
       style_left := None; style_top := None;
       style_transition := "";
       content_innerHTML :=
         nl +:+ "                    Waiting for WebRTC IP detection..." +:+ nl +:+ "                " |})).

Definition current_html (currentIP table : string) : string :=
  nl +:+ "                    <p style=" +:+ dq +:+ "color: #61afef; font-weight: bold; margin-bottom: 5px;" +:+ dq +:+ ">Current Detected IP: " +:+ currentIP +:+ "</p>" +:+ nl +:+ "                    " +:+ table +:+ nl +:+ "                ".

(** [showCurrentIP] up to its [await]: the addresses whose lookup it
    awaits, none when it has finished. An entry found in the history has
    a [data] object, which counts as true. *)
Definition showCurrentIP (toText : jsval → string) (w : World)
  : M PanelManager (list string) :=
  on_view (set_color "#98c379") ;;
  match lastReportedIP w with
  | None =>
      on_view (set_innerHTML "<p>Waiting for WebRTC IP detection...</p>") ;; ret []
  | Some currentIP =>
      if String.eqb currentIP "" then
        on_view (set_innerHTML "<p>Waiting for WebRTC IP detection...</p>") ;; ret []
      else
        match list_find (λ item, ip item = currentIP) (ipHistory w) with
        | Some (_, historyEntry) =>
            on_view (set_innerHTML
                       (current_html currentIP
                          (createTableHTML toText (entries (data historyEntry))))) ;;
            ret []
        | None => ret [currentIP]
        end
  end.

(** [showCurrentIP] from its [await] on: [data] is what the lookup of
    [currentIP] resolved with. *)
Definition showCurrentIP_resume (toText : jsval → string) (currentIP : string)
  (data0 : option GeoData) : M PanelManager unit :=
  match data0 with
  | Some d =>
      on_view (set_innerHTML
                 (current_html currentIP (createTableHTML toText (entries d))))
  | None =>
      on_view (set_innerHTML
                 ("<p>Could not retrieve geolocation for " +:+ currentIP +:+ ".</p>"))
  end.

Definition history_entry_html (toText : jsval → string) (entry : HistoryEntry) : string :=
  let table :=
    createTableHTML toText
      [ ("Country", Country (data entry)); ("City", City (data entry));
        ("ISP", ISP (data entry)) ] in
  nl +:+ "                    <div class=" +:+ dq +:+ "history-entry" +:+ dq +:+ ">" +:+ nl +:+ "                        <div class=" +:+ dq +:+ "ip-header" +:+ dq +:+ ">" +:+ nl +:+ "                            <span>" +:+ ip entry +:+ "</span>" +:+ nl +:+ "                            <span style=" +:+ dq +:+ "font-size: 10px; font-weight: normal; color: #56b6c2;" +:+ dq +:+ ">" +:+ timestamp entry +:+ "</span>" +:+ nl +:+ "                        </div>" +:+ nl +:+ "                        " +:+ table +:+ nl +:+ "                    </div>" +:+ nl +:+ "                ".

Definition showHistory (toText : jsval → string) (w : World) : M PanelManager unit :=
  on_view (set_color "#e06c75") ;;
  let history := ipHistory w in
  if (length history =? 0)%nat then
    on_view (set_innerHTML "<p>No IP history recorded yet.</p>")
  else
    let html :=
      "<p style=" +:+ dq +:+ "color: #e06c75; font-weight: bold; margin-bottom: 10px;" +:+ dq +:+ ">IP Detection History</p>" in
    let html :=
      foldl (λ html entry, html +:+ history_entry_html toText entry) html history in
    on_view (set_innerHTML html).

Definition updatePanelContent (toText : jsval → string) (w : World)
  : M PanelManager (list string) :=
  let! p := get in
  match panel p with
  | None => ret []
  | Some _ =>
      if state_historyView (currentState p) then showHistory toText w ;; ret []
      else not_awaited (showCurrentIP toText w)
  end.

Definition applyState (toText : jsval → string) (w : World)
  : M PanelManager (list string) :=
  let! p := get in
  on_view (set_position (state_x (currentState p)) (state_y (currentState p))) ;;
  on_view (set_collapsed (state_collapsed (currentState p))) ;;
  if state_historyView (currentState p) then showHistory toText w ;; ret []
  else not_awaited (showCurrentIP toText w).

(** [init] when [document.body] exists; the listeners it installs are the
    functions below. *)
Definition init (toText : jsval → string) (w : World) : M PanelManager (list string) :=
  createPanel ;;
  let! a := applyState toText w in
  let! b := not_awaited (updatePanelContent toText w) in
  ret (a ++ b).

Definition saveState (env : Env) (lay : Layout) : M (World * PanelManager) unit :=
  let! s := get in
  match panel s.2 with
  | Some v =>
      if parentElement v then
        let st := {| state_x := offsetLeft lay; state_y := offsetTop lay;
                     state_collapsed := classList_collapsed v;
                     state_historyView := state_historyView (currentState s.2) |} in
        on_panel (λ _, modify (set_currentState st)) ;;
        on_world (on_storage
                    (setStoredValue (backend env) STORAGE_KEY_STATE (stored_state st)))
      else ret tt
  | None => ret tt
  end.

(** The listeners of [setupDragListeners]. *)
Definition mousedown (button clientX clientY : Z) (lay : Layout) : M PanelManager unit :=
  if bool_decide (button ≠ 0)%Z then ret tt
  else
    modify (set_isDragging true) ;;
    the_panel ;;
    modify (set_dragOffset (clientX - offsetLeft lay) (clientY - offsetTop lay)) ;;
    on_view (set_transition "none").

Definition mousemove (clientX clientY : Z) (lay : Layout) : M PanelManager unit :=
  let! p := get in
  if negb (isDragging p) then ret tt
  else
    let newX := (clientX - dragOffsetX p)%Z in
    let newY := (clientY - dragOffsetY p)%Z in
    the_panel ;;
    let newX := Z.max 0 (Z.min newX (innerWidth lay - offsetWidth lay)) in
    let newY := Z.max 0 (Z.min newY (innerHeight lay - offsetHeight lay)) in
    on_view (set_position newX newY).

Definition mouseup (env : Env) (lay : Layout) : M (World * PanelManager) unit :=
  let! s := get in
  if isDragging s.2 then
    on_panel (λ _, modify (set_isDragging false) ;; on_view (set_transition "")) ;;
    saveState env lay
  else ret tt.

(** The listener of [setupToggleListener]. *)
Definition toggle_click (env : Env) (lay : Layout) : M (World * PanelManager) unit :=
  on_panel (λ _, let! v := the_panel in
                 on_view (set_collapsed (negb (classList_collapsed v)))) ;;
  saveState env lay.

(** The listener of [setupHistoryListener]. *)
Definition history_click (env : Env) (toText : jsval → string) (lay : Layout)
  : M (World * PanelManager) (list string) :=
  on_panel (λ _,
    let! p := get in
    let st := currentState p in
    modify (set_currentState
              {| state_x := state_x st; state_y := state_y st;
                 state_collapsed := state_collapsed st;
                 state_historyView := negb (state_historyView st) |}) ;;
    on_view (set_color (if negb (state_historyView st) then "#e06c75" else "#98c379"))) ;;
  let! awaited := on_panel (λ w, not_awaited (updatePanelContent toText w)) in
  saveState env lay ;;
  ret awaited.

(** The callback of [setupRefreshInterval]. *)
Definition refresh_tick (toText : jsval → string) : M (World * PanelManager) (list string) :=
  on_panel (λ w,
    let! p := get in
    match panel p with
    | Some _ =>
        if negb (state_historyView (currentState p))
        then not_awaited (updatePanelContent toText w)
        else ret []
    | None => ret []
    end).

(** What happens to the panel, one listener or callback at a time. *)
Inductive ui_event :=
| UiMouseDown (button clientX clientY : Z) (lay : Layout)
| UiMouseMove (clientX clientY : Z) (lay : Layout)
| UiMouseUp (lay : Layout)
| UiToggle (lay : Layout)
| UiHistory (lay : Layout)
| UiTick                               (* the refresh interval fires *)
| UiLookupDone                         (* the [then] of the hook's lookup *)
| UiResume (currentIP : string) (data0 : option GeoData).
                                       (* a lookup [showCurrentIP] awaits settles *)

Definition ui_handle (env : Env) (toText : jsval → string) (e : ui_event)
  : M (World * PanelManager) (list string) :=
  match e with
  | UiMouseDown button clientX clientY lay =>
      on_panel (λ _, mousedown button clientX clientY lay) ;; ret []
  | UiMouseMove clientX clientY lay =>
      on_panel (λ _, mousemove clientX clientY lay) ;; ret []
  | UiMouseUp lay => mouseup env lay ;; ret []
  | UiToggle lay => toggle_click env lay ;; ret []
  | UiHistory lay => history_click env toText lay
  | UiTick => refresh_tick toText
  | UiLookupDone => on_panel (λ w, not_awaited (updatePanelContent toText w))
  | UiResume currentIP data0 =>
      on_panel (λ _, not_awaited (showCurrentIP_resume toText currentIP data0 ;; ret []))
  end.

(** * Part II: the vocabulary of the properties *)

(** ** The ledger *)

(** The ledger invariant: at most [MAX_IP_HISTORY] entries, all of them
    with different addresses. *)
Definition ledger_ok (h : list HistoryEntry) : Prop :=
  length h ≤ MAX_IP_HISTORY ∧ NoDup (ip <$> h).

(** The ledger [updateHistory] leaves, as a function of the ledger before. *)
Definition promoted (now a : string) (d : GeoData) (h : list HistoryEntry)
  : list HistoryEntry :=
  match list_find (λ item, ip item = a) h with
  | Some (i, item) => with_timestamp item now :: delete i h
  | None => {| ip := a; data := d; timestamp := now |} :: h
  end.

(** The trimming to [MAX_IP_HISTORY] entries. *)
Definition trimmed (h : list HistoryEntry) : list HistoryEntry :=
  if MAX_IP_HISTORY <? length h then pop h else h.

Definition ledger_after (now a : string) (d : GeoData) (h : list HistoryEntry)
  : list HistoryEntry :=
  trimmed (promoted now a d h).

(** The storage [updateHistory] leaves. *)
Definition stored_after (be : Backend) (a : string) (h : list HistoryEntry)
  (s : gmap string stored) : gmap string stored :=
  match GM_setValue_fn be with
  | GM_works => <[STORAGE_KEY_IP := StAddress a]> (<[STORAGE_KEY_HISTORY := StHistory h]> s)
  | _ => s
  end.

(** A series of [updateHistory] calls, each with its clock reading, address
    and data. *)
Definition record_all (env : Env) (calls : list (string * string * GeoData))
  : M World unit :=
  foldr (λ '(now, a, d) k, updateHistory env now a d ;; k) (ret tt) calls.

Definition ledger_after_all (calls : list (string * string * GeoData))
  (h : list HistoryEntry) : list HistoryEntry :=
  foldl (λ h '(now, a, d), ledger_after now a d h) h calls.

(** The addresses of a series of calls, oldest call first, and the same
    addresses by recency: each address once, the most recently recorded
    first. *)
Definition addresses (calls : list (string * string * GeoData)) : list string :=
  (λ c, c.1.2) <$> calls.

Definition by_recency (calls : list (string * string * GeoData)) : list string :=
  reverse (remove_dups (addresses calls)).

(** The history kept in the storage is within the invariant. *)
Definition well_stored (store : gmap string stored) : Prop :=
  ∀ h, store !! STORAGE_KEY_HISTORY = Some (StHistory h) → ledger_ok h.

(** Ledger and stored history are both within the invariant. *)
Definition world_ok (w : World) : Prop :=
  ledger_ok (ipHistory w) ∧ well_stored (storage w).

(** ** Resolution and admission *)

(** The replies that are resolution failures: the transport's [onerror]; a
    response text [JSON.parse] rejects; a parsed response on which reading
    [error] throws ([null]); a parsed response whose [error] field holds a
    value that counts as true, as every object does (the lookup service
    sends [{ error: { message } }]). *)
Definition resolution_fails (reply : response) : Prop :=
  match reply with
  | OnError => True
  | OnLoad (Throw _) => True
  | OnLoad (Ok json) =>
      match prop json "error" with
      | Throw _ => True
      | Ok err => truthy err = true
      end
  end.

(** The test of the novelty filter. *)
Definition novel (a : string) (w : World) : Prop :=
  Some a ≠ lastReportedIP w ∧ a ∉ detectedIps w.

(** The lookups requested by a series of candidates: for each call of the
    hook in turn, the url handed to [GM_xmlhttpRequest], if any. *)
Fixpoint requests_made (env : Env) (ices : list ice_arg) (w : World)
  : list (option string) * World :=
  match ices with
  | [] => ([], w)
  | ice :: ices' =>
      let '(r, w') := try_catch (detect env ice) (λ _, ret None) w in
      let '(rs, w'') := requests_made env ices' w' in
      (match r with Ok u => u | Throw _ => None end :: rs, w'')
  end.

(** ** The language of a pattern *)

(** [n] pieces of [L] in a row. *)
Fixpoint pieces (L : list ascii → Prop) (n : nat) (t : list ascii) : Prop :=
  match n with
  | O => t = []
  | S n' => ∃ t1 t2, t = t1 ++ t2 ∧ L t1 ∧ pieces L n' t2
  end.

(** The texts a pattern matches. *)
Fixpoint lang (r : regex) (t : list ascii) : Prop :=
  match r with
  | Eps => t = []
  | Lit c => t = [c]
  | Range lo hi => ∃ c, t = [c] ∧ in_range lo hi c = true
  | Space => ∃ c, t = [c] ∧ is_space c = true
  | Seq r1 r2 => ∃ t1 t2, t = t1 ++ t2 ∧ lang r1 t1 ∧ lang r2 t2
  | Rep r lo hi => ∃ n, lo ≤ n ≤ hi ∧ pieces (lang r) n t
  | Group r => lang r t
  end.

(** Every repetition has its lower bound below its upper bound. *)
Fixpoint bounded (r : regex) : Prop :=
  match r with
  | Seq r1 r2 => bounded r1 ∧ bounded r2
  | Rep r lo hi => lo ≤ hi ∧ bounded r
  | Group r => bounded r
  | _ => True
  end.

(** ** Markers and dotted quads *)

Definition chars (s : string) : list ascii := list_ascii_of_string s.

Definition is_digit (c : ascii) : bool := in_range "0" "9" c.

(** One to three digits. *)
Definition is_group (g : list ascii) : Prop :=
  1 ≤ length g ≤ 3 ∧ Forall (λ c, is_digit c = true) g.

(** Four groups separated by dots. *)
Definition is_quad (q : list ascii) : Prop :=
  ∃ g1 g2 g3 g4,
    is_group g1 ∧ is_group g2 ∧ is_group g3 ∧ is_group g4
    ∧ q = g1 ++ "."%char :: g2 ++ "."%char :: g3 ++ "."%char :: g4.

(** "typ", one white-space character, "srflx". *)
Definition is_marker (m : list ascii) : Prop :=
  ∃ c, is_space c = true ∧ m = chars "typ" ++ c :: chars "srflx".

(** [t] occurs in [s] at index [i]. *)
Definition occurs_at (s : list ascii) (i : nat) (t : list ascii) : Prop :=
  ∃ pre post, s = pre ++ t ++ post ∧ length pre = i.

(** The record holds the marker; the record holds the dotted quad [q] at
    index [i]. *)
Definition has_marker (s : string) : Prop :=
  ∃ i m, is_marker m ∧ occurs_at (chars s) i m.

Definition quad_at (s : string) (i : nat) (q : string) : Prop :=
  is_quad (chars q) ∧ occurs_at (chars s) i (chars q).

(** The first dotted quad of [s]: none starts further left, and none that
    starts at the same index is longer. *)
Definition first_quad (s : string) (q : string) : Prop :=
  ∃ i, quad_at s i q
       ∧ ∀ j q', quad_at s j q' →
                 i < j ∨ (i = j ∧ String.length q' ≤ String.length q).

(** ** Lookups and their outcomes *)

(** The url of the lookup of an address. *)
Definition lookup_url (a : string) : string :=
  API_URL +:+ a +:+ "?token=" +:+ API_KEY.

(** [json.name], [undefined] where the read would throw. *)
Definition member (json : jsval) (name : string) : jsval :=
  match prop json name with
  | Ok v => v
  | Throw _ => JUndefined
  end.

(** The display name of the country of a response. *)
Definition country_name (env : Env) (json : jsval) : result jsval :=
  if truthy (member json "country")
  then regionNames_of env (member json "country")
  else Ok (JStr "N/A").

(** The data of a response, given the display name of its country. *)
Definition normalised (json country : jsval) : GeoData :=
  {| IP_Address := or_else (member json "ip") (JStr "N/A");
     Country := country;
     Region := or_else (member json "region") (JStr "N/A");
     City := or_else (member json "city") (JStr "N/A");
     Location := or_else (member json "loc") (JStr "N/A");
     ISP := or_else (member json "org") (JStr "N/A");
     Hostname := or_else (member json "hostname") (JStr "N/A");
     VPN_Proxy := if truthy (member json "bogon") then JStr "Yes (Bogon)"
                  else JStr "No" |}.

(** The data of a response that tells nothing. *)
Definition nothing_known : GeoData :=
  {| IP_Address := JStr "N/A"; Country := JStr "N/A"; Region := JStr "N/A";
     City := JStr "N/A"; Location := JStr "N/A"; ISP := JStr "N/A";
     Hostname := JStr "N/A"; VPN_Proxy := JStr "No" |}.


(** The last reported address is the address of the first ledger entry. *)
Definition synced (w : World) : Prop :=
  lastReportedIP w = ip <$> head (ipHistory w).

(** The urls of the lookups a series of events requests, in order. *)
Fixpoint lookups (env : Env) (es : list event) (w : World) : list string :=
  match es with
  | [] => []
  | e :: es' =>
      match e with
      | EvCandidate ice =>
          match (detect env ice w).1 with
          | Ok (Some url) => [url]
          | _ => []
          end
      | _ => []
      end ++ lookups env es' (handle env e w).2
  end.

(** ** The panel *)

(** What the panel shows agrees with its state: the toggle button reads
    [+] exactly when the panel is collapsed, and the history button has
    the highlight colour exactly in the history view. *)
Definition panel_ok (p : PanelManager) : Prop :=
  ∃ v, panel p = Some v
       ∧ toggle_textContent v = (if classList_collapsed v then "+" else "_")
       ∧ historyButton_color v
         = (if state_historyView (currentState p) then "#e06c75" else "#98c379").

(** What [showCurrentIP] writes into the panel when the last reported
    address is the address of the first ledger entry. *)
Definition waiting_or_current (toText : jsval → string) (w : World) : string :=
  match head (ipHistory w) with
  | Some e =>
      if String.eqb (ip e) "" then "<p>Waiting for WebRTC IP detection...</p>"
      else current_html (ip e) (createTableHTML toText (entries (data e)))
  | None => "<p>Waiting for WebRTC IP detection...</p>"
  end.

(** An operation on the page whose only effect on the world is on what is
    stored under [STORAGE_KEY_STATE]. *)
Definition state_only {A} (m : M (World * PanelManager) A) : Prop :=
  ∀ s, ∃ store',
    (m s).2.1 = set_storage store' s.1
    ∧ ∀ k, k ≠ STORAGE_KEY_STATE → store' !! k = storage s.1 !! k.

(** ** Sample data for the closed instances *)

Definition geo (city : string) : GeoData :=
  {| IP_Address := JStr "N/A"; Country := JStr "N/A"; Region := JStr "N/A";
     City := JStr city; Location := JStr "N/A"; ISP := JStr "N/A";
     Hostname := JStr "N/A"; VPN_Proxy := JStr "No" |}.

Definition host : Env :=
  {| backend := available;
     has_GM_xmlhttpRequest := true;
     regionNames_of := λ v, match v with
                            | JStr "FR" => Ok (JStr "France")
                            | JStr "US" => Ok (JStr "United States")
                            | _ => Throw RangeError
                            end |}.

Definition blank : World :=
  {| storage := ∅; ipHistory := []; lastReportedIP := None; detectedIps := ∅ |}.

Definition two_seen : World :=
  {| storage := ∅;
     ipHistory := [ {| ip := "198.51.100.9"; data := geo "Oslo"; timestamp := "t2" |};
                    {| ip := "203.0.113.7"; data := geo "Paris"; timestamp := "t1" |} ];
     lastReportedIP := Some "198.51.100.9";
     detectedIps := ∅ |}.

(** A full ledger. *)
Definition five_seen : World :=
  {| storage := ∅;
     ipHistory := [ {| ip := "192.0.2.5"; data := geo "Lima"; timestamp := "t5" |};
                    {| ip := "192.0.2.4"; data := geo "Kyiv"; timestamp := "t4" |};
                    {| ip := "192.0.2.3"; data := geo "Oslo"; timestamp := "t3" |};
                    {| ip := "192.0.2.2"; data := geo "Rome"; timestamp := "t2" |};
                    {| ip := "192.0.2.1"; data := geo "Paris"; timestamp := "t1" |} ];
     lastReportedIP := Some "192.0.2.5";
     detectedIps := ∅ |}.

Definition sample_text (v : jsval) : string :=
  match v with
  | JStr t => t
  | _ => "?"
  end.

Definition plain_view : PanelView :=
  {| parentElement := true;
     classList_collapsed := false;
     toggle_textContent := "_";
     historyButton_color := "#98c379";
     style_left := Some 40%Z; style_top := Some 10%Z;
     style_transition := "";
     content_innerHTML := "<p>Waiting for WebRTC IP detection...</p>" |}.

Definition at_start : PanelManager :=
  {| panel := None;
     currentState := {| state_x := 40; state_y := 10;
                        state_collapsed := false; state_historyView := false |};
     isDragging := false; dragOffsetX := 0; dragOffsetY := 0 |}.

Definition at_rest : PanelManager := set_panel (Some plain_view) at_start.

Definition viewport : Layout :=
  {| offsetLeft := 40; offsetTop := 10; offsetWidth := 300; offsetHeight := 50;
     innerWidth := 1280; innerHeight := 720 |}.

(** * Part III: properties *)

(** ** StateStore *)

Lemma getStoredValue_run {V} `{Undefinable V} be key (d : V) store :
  getStoredValue be key d store =
    (Ok (match GM_getValue_fn be with
         | GM_works =>
             match store !! key with
             | Some v => if is_undefined v then d else v
             | None => d
             end
         | _ => d
         end), store).
Proof.
  unfold getStoredValue, GM_getValue, try_catch, bind, get, ret, throw.
  destruct (GM_getValue_fn be); reflexivity.
Qed.

(** On the values the script stores, none of them [undefined]. *)
Lemma getStoredValue_stored be key (d : stored) store :
  getStoredValue be key d store =
    (Ok (match GM_getValue_fn be with
         | GM_works => default d (store !! key)
         | _ => d
         end), store).
Proof.
  rewrite getStoredValue_run.
  destruct (GM_getValue_fn be); [done..|]. by destruct (store !! key).
Qed.

Lemma setStoredValue_run {V} be key (v : V) store :
  setStoredValue be key v store =
    (Ok tt, match GM_setValue_fn be with
            | GM_works => <[key := v]> store
            | _ => store
            end).
Proof.
  unfold setStoredValue, GM_setValue, try_catch, bind, get, put, ret, throw.
  destruct (GM_setValue_fn be); reflexivity.
Qed.

(** C9. With a working backend, [setStoredValue k v] followed by
    [getStoredValue k d] returns [v] for every value [v] other than
    [undefined], and [d] when [v] is [undefined]. When [GM_getValue] raises
    (or is not granted), [getStoredValue k d] returns [d]; when
    [GM_setValue] raises (or is not granted), [setStoredValue k v] leaves
    the storage as it was. Whatever the backend, both operations return
    and neither throws. *)
Theorem store_round_trip {V} `{Undefinable V} (store : gmap string V) (k : string)
    (v d : V) :
  (is_undefined v = false →
   (getStoredValue available k d (setStoredValue available k v store).2).1 = Ok v)
  ∧ (is_undefined v = true →
     (getStoredValue available k d (setStoredValue available k v store).2).1 = Ok d)
  ∧ (∀ be, GM_getValue_fn be ≠ GM_works →
           getStoredValue be k d store = (Ok d, store))
  ∧ (∀ be, GM_setValue_fn be ≠ GM_works →
           setStoredValue be k v store = (Ok tt, store))
  ∧ (∀ be, returns (getStoredValue be k d store).1
           ∧ returns (setStoredValue be k v store).1).
Proof.
  split; [|split; [|split; [|split]]].
  - intros Hv. rewrite setStoredValue_run, getStoredValue_run. simpl.
    by rewrite lookup_insert_eq, Hv.
  - intros Hv. rewrite setStoredValue_run, getStoredValue_run. simpl.
    by rewrite lookup_insert_eq, Hv.
  - intros be Hbe. rewrite getStoredValue_run.
    by destruct (GM_getValue_fn be).
  - intros be Hbe. rewrite setStoredValue_run.
    by destruct (GM_setValue_fn be).
  - intros be. rewrite getStoredValue_run, setStoredValue_run.
    split; eexists; reflexivity.
Qed.

Lemma store_round_trip_witness :
  is_undefined (JObj [("x", JNum 40); ("collapsed", JBool true)]) = false
  ∧ (getStoredValue available "manusGeoPanelState" JNull
       (setStoredValue available "manusGeoPanelState"
          (JObj [("x", JNum 40); ("collapsed", JBool true)])
          {["manusGeoLastIP" := JStr "203.0.113.7"]}).2).1
    = Ok (JObj [("x", JNum 40); ("collapsed", JBool true)])
  ∧ getStoredValue raising "manusGeoLastIP" JNull
      {["manusGeoLastIP" := JStr "203.0.113.7"]}
    = (Ok JNull, {["manusGeoLastIP" := JStr "203.0.113.7"]})
  ∧ setStoredValue raising "manusGeoLastIP" (JStr "198.51.100.9")
      {["manusGeoLastIP" := JStr "203.0.113.7"]}
    = (Ok tt, {["manusGeoLastIP" := JStr "203.0.113.7"]}).
Proof.
  assert (Hv : is_undefined (JObj [("x", JNum 40); ("collapsed", JBool true)]) = false)
    by reflexivity.
  split; [exact Hv|].
  split.
  - exact (proj1 (store_round_trip {["manusGeoLastIP" := JStr "203.0.113.7"]}
                    "manusGeoPanelState"
                    (JObj [("x", JNum 40); ("collapsed", JBool true)]) JNull) Hv).
  - destruct (store_round_trip {["manusGeoLastIP" := JStr "203.0.113.7"]}
                "manusGeoLastIP" (JStr "198.51.100.9") JNull) as (_ & _ & H2 & H3 & _).
    split; [apply H2; discriminate | apply H3; discriminate].
Defined.

(** The round trip of C9 fails for [undefined]: with a working backend,
    [setStoredValue k undefined] followed by [getStoredValue k d] returns
    the default [d], not the value that was set. *)
Example undefined_reads_as_default :
  (getStoredValue available "k" (JStr "d") (setStoredValue available "k" JUndefined ∅).2).1
  = Ok (JStr "d")
  ∧ (getStoredValue available "k" (JStr "d") (setStoredValue available "k" JUndefined ∅).2).1
    ≠ Ok JUndefined.
Proof.
  assert (H : (getStoredValue available "k" (JStr "d")
                 (setStoredValue available "k" JUndefined ∅).2).1 = Ok (JStr "d")).
  { rewrite setStoredValue_run, getStoredValue_run. simpl.
    by rewrite lookup_insert_eq. }
  split; [exact H|]. rewrite H. discriminate.
Qed.

Lemma main_run env store :
  main env store =
    Ok {| storage := store;
          ipHistory :=
            as_history (match GM_getValue_fn (backend env) with
                        | GM_works => default (StHistory []) (store !! STORAGE_KEY_HISTORY)
                        | _ => StHistory []
                        end);
          lastReportedIP :=
            as_address (match GM_getValue_fn (backend env) with
                        | GM_works => default StNull (store !! STORAGE_KEY_IP)
                        | _ => StNull
                        end);
          detectedIps := ∅ |}.
Proof.
  unfold main, new_GeolocationService, bind, ret.
  by rewrite !getStoredValue_stored.
Qed.

(** ** HistoryLedger: [updateHistory] *)

Lemma updateHistory_run env now a d w :
  updateHistory env now a d w =
    (Ok tt,
     {| storage := stored_after (backend env) a (ledger_after now a d (ipHistory w)) (storage w);
        ipHistory := ledger_after now a d (ipHistory w);
        lastReportedIP := Some a;
        detectedIps := detectedIps w |}).
Proof.
  unfold updateHistory, bind, get, put, on_storage, stored_after.
  cbn [set_ipHistory storage ipHistory lastReportedIP detectedIps].
  repeat (rewrite setStoredValue_run ||
          cbn [set_storage set_lastReportedIP storage ipHistory lastReportedIP detectedIps]).
  destruct (GM_setValue_fn (backend env)); reflexivity.
Qed.

Lemma pop_take {A} (l : list A) : pop l = take (length l - 1) l.
Proof. unfold pop. rewrite removelast_firstn_len. f_equal. lia. Qed.

Lemma find_present a (h : list HistoryEntry) :
  a ∈ ip <$> h → ∃ i item, list_find (λ e, ip e = a) h = Some (i, item).
Proof.
  intros (e & -> & He)%list_elem_of_fmap.
  destruct (list_find_elem_of (λ x, ip x = ip e) h e He eq_refl) as [[i item] Hf].
  eauto.
Qed.

Lemma find_absent a (h : list HistoryEntry) :
  a ∉ ip <$> h → list_find (λ e, ip e = a) h = None.
Proof.
  intros Ha. apply list_find_None, Forall_forall. intros e He Hip.
  apply Ha, list_elem_of_fmap. by exists e.
Qed.

Lemma promoted_present now a d h i item :
  list_find (λ e, ip e = a) h = Some (i, item) →
  promoted now a d h = {| ip := a; data := data item; timestamp := now |} :: delete i h.
Proof.
  intros Hf. unfold promoted. rewrite Hf.
  apply list_find_Some in Hf as (_ & <- & _). reflexivity.
Qed.

Lemma promoted_absent now a d h :
  a ∉ ip <$> h →
  promoted now a d h = {| ip := a; data := d; timestamp := now |} :: h.
Proof. intros Ha. unfold promoted. by rewrite (find_absent _ _ Ha). Qed.

Lemma promoted_length now a d h :
  length (promoted now a d h) =
    if bool_decide (a ∈ ip <$> h) then length h else S (length h).
Proof.
  case_bool_decide as Ha.
  - destruct (find_present _ _ Ha) as (i & item & Hf).
    rewrite (promoted_present _ _ _ _ _ _ Hf). simpl.
    apply list_find_Some in Hf as (Hi & _ & _).
    rewrite length_delete by eauto.
    apply lookup_lt_Some in Hi. lia.
  - by rewrite promoted_absent.
Qed.

Lemma promoted_addresses now a d h :
  ∃ rest, ip <$> promoted now a d h = a :: rest
          ∧ rest `sublist_of` (ip <$> h)
          ∧ (NoDup (ip <$> h) → a ∉ rest).
Proof.
  destruct (decide (a ∈ ip <$> h)) as [Ha|Ha].
  - destruct (find_present _ _ Ha) as (i & item & Hf).
    rewrite (promoted_present _ _ _ _ _ _ Hf).
    exists (ip <$> delete i h). split; [done|]. split.
    + rewrite list_fmap_delete. apply sublist_delete.
    + apply list_find_Some in Hf as (Hi & Hip & _).
      rewrite <- (take_drop_middle h i item Hi) at 1.
      rewrite delete_take_drop, !fmap_app, fmap_cons, Hip.
      intros (_ & Hnot & [Hnd _]%NoDup_cons)%NoDup_app.
      intros [Hin|Hin]%elem_of_app; [|done].
      eapply Hnot; [done|]. left.
  - rewrite promoted_absent by done. exists (ip <$> h). split; [done|].
    split; [done|]. by intros _.
Qed.

Lemma promoted_ok now a d h :
  NoDup (ip <$> h) → NoDup (ip <$> promoted now a d h).
Proof.
  intros Hnd. destruct (promoted_addresses now a d h) as (rest & -> & Hsub & Hnot).
  apply NoDup_cons. split; [auto|]. by eapply sublist_NoDup.
Qed.

Lemma trimmed_length h :
  length h ≤ S MAX_IP_HISTORY → length (trimmed h) ≤ MAX_IP_HISTORY.
Proof.
  unfold trimmed, MAX_IP_HISTORY. intros Hlen.
  destruct (Nat.ltb_spec 5 (length h)); [|lia].
  rewrite pop_take, length_take. lia.
Qed.

Lemma trimmed_sublist h : trimmed h `sublist_of` h.
Proof.
  unfold trimmed. destruct (_ <? _); [|done].
  rewrite pop_take. apply sublist_take.
Qed.

Lemma trimmed_head h : head (trimmed h) = head h.
Proof.
  unfold trimmed, MAX_IP_HISTORY.
  destruct (Nat.ltb_spec 5 (length h)); [|done].
  rewrite pop_take. destruct h as [|e h]; [done|].
  simpl in *. rewrite Nat.sub_0_r. destruct (length h); [lia|done].
Qed.

Lemma ledger_after_head now a d h :
  ip <$> head (ledger_after now a d h) = Some a.
Proof.
  unfold ledger_after. rewrite trimmed_head.
  destruct (promoted_addresses now a d h) as (rest & Heq & _).
  destruct (promoted now a d h); simpl in *; [done|]. by inversion Heq.
Qed.

Lemma ledger_after_ok now a d h :
  ledger_ok h → ledger_ok (ledger_after now a d h).
Proof.
  intros [Hlen Hnd]. unfold ledger_after. split.
  - apply trimmed_length. rewrite promoted_length. case_bool_decide; lia.
  - eapply sublist_NoDup; [by apply promoted_ok|].
    apply fmap_sublist, trimmed_sublist.
Qed.

Lemma record_all_run env calls w :
  (record_all env calls w).1 = Ok tt
  ∧ ipHistory (record_all env calls w).2 = ledger_after_all calls (ipHistory w)
  ∧ detectedIps (record_all env calls w).2 = detectedIps w.
Proof.
  revert w. induction calls as [|[[now a] d] calls IH]; intros w; [done|].
  change (record_all env ((now, a, d) :: calls))
    with (updateHistory env now a d ;; record_all env calls).
  unfold bind. rewrite updateHistory_run. cbv beta iota.
  destruct (IH {| storage := stored_after (backend env) a
                               (ledger_after now a d (ipHistory w)) (storage w);
                  ipHistory := ledger_after now a d (ipHistory w);
                  lastReportedIP := Some a;
                  detectedIps := detectedIps w |}) as (H1 & H2 & H3).
  by rewrite H1, H2, H3.
Qed.

Lemma trimmed_short h : length h ≤ MAX_IP_HISTORY → trimmed h = h.
Proof.
  unfold trimmed, MAX_IP_HISTORY. intros Hlen.
  by destruct (Nat.ltb_spec 5 (length h)); [lia|].
Qed.

(** C1, as the code has it. When the address is already in the ledger,
    [updateHistory] takes its first entry out, gives it the new timestamp,
    keeps the metadata it was stored with (the metadata passed to the call
    are not stored) and puts it at position 0; the trim that follows drops
    the last entry only from a ledger that was over its bound of 5. After
    [A], [B], [A] on an empty ledger there are exactly two entries, [A]
    then [B], [A] with the timestamp of the third call and the metadata of
    the first. *)
Theorem record_present env :
  (∀ now a d w,
     a ∈ ip <$> ipHistory w →
     ∃ i item,
       ipHistory w !! i = Some item
       ∧ ip item = a
       ∧ (∀ j e, ipHistory w !! j = Some e → ip e = a → i ≤ j)
       ∧ (updateHistory env now a d w).1 = Ok tt
       ∧ ipHistory (updateHistory env now a d w).2 =
           (if 5 <? length (ipHistory w)
            then pop ({| ip := a; data := data item; timestamp := now |}
                        :: delete i (ipHistory w))
            else {| ip := a; data := data item; timestamp := now |}
                   :: delete i (ipHistory w))
       ∧ lastReportedIP (updateHistory env now a d w).2 = Some a)
  ∧ (∀ A B dA dB dA' t1 t2 t3 w,
       A ≠ B →
       ipHistory w = [] →
       ipHistory (record_all env [(t1, A, dA); (t2, B, dB); (t3, A, dA')] w).2 =
         [ {| ip := A; data := dA; timestamp := t3 |};
           {| ip := B; data := dB; timestamp := t2 |} ]).
Proof.
  split.
  - intros now a d w Ha.
    destruct (find_present _ _ Ha) as (i & item & Hf).
    exists i, item. rewrite updateHistory_run. simpl.
    unfold ledger_after. rewrite (promoted_present _ _ _ _ _ _ Hf).
    apply list_find_Some in Hf as (Hi & Hip & Hleast).
    split; [done|]. split; [done|]. split; [|split; [done|split; [|done]]].
    + intros j e Hj He. destruct (decide (i ≤ j)) as [|Hlt]; [done|].
      exfalso. eapply (Hleast j e); [done|lia|done].
    + unfold trimmed, MAX_IP_HISTORY. simpl length.
      rewrite length_delete by eauto. apply lookup_lt_Some in Hi.
      by replace (S (length (ipHistory w) - 1)) with (length (ipHistory w)) by lia.
  - intros A B dA dB dA' t1 t2 t3 w HAB Hw.
    destruct (record_all_run env [(t1, A, dA); (t2, B, dB); (t3, A, dA')] w)
      as (_ & -> & _).
    rewrite Hw. unfold ledger_after_all. simpl.
    unfold ledger_after, promoted, trimmed. simpl.
    rewrite (decide_False (P := A = B)) by done. simpl.
    rewrite (decide_False (P := B = A)) by done. simpl.
    rewrite (decide_True (P := A = A)) by done. simpl.
    reflexivity.
Qed.

Lemma record_present_witness :
  ("203.0.113.7" ∈ ip <$> ipHistory two_seen
   ∧ ∃ i item,
       ipHistory two_seen !! i = Some item
       ∧ ipHistory (updateHistory host "t3" "203.0.113.7" (geo "Lyon") two_seen).2 =
           (if 5 <? length (ipHistory two_seen)
            then pop ({| ip := "203.0.113.7"; data := data item; timestamp := "t3" |}
                        :: delete i (ipHistory two_seen))
            else {| ip := "203.0.113.7"; data := data item; timestamp := "t3" |}
                   :: delete i (ipHistory two_seen)))
  ∧ "203.0.113.7" ≠ "198.51.100.9"
  ∧ ipHistory blank = []
  ∧ ipHistory (record_all host [("t1", "203.0.113.7", geo "Paris");
                                ("t2", "198.51.100.9", geo "Oslo");
                                ("t3", "203.0.113.7", geo "Lyon")] blank).2 =
      [ {| ip := "203.0.113.7"; data := geo "Paris"; timestamp := "t3" |};
        {| ip := "198.51.100.9"; data := geo "Oslo"; timestamp := "t2" |} ].
Proof.
  assert (Hin : "203.0.113.7" ∈ ip <$> ipHistory two_seen).
  { simpl. right. left. }
  assert (Hne : "203.0.113.7" ≠ "198.51.100.9") by discriminate.
  destruct (record_present host) as [H1 H2].
  split.
  - split; [exact Hin|].
    destruct (H1 "t3" "203.0.113.7" (geo "Lyon") two_seen Hin)
      as (i & item & Hi & _ & _ & _ & Hh & _).
    exists i, item. split; [exact Hi | exact Hh].
  - split; [exact Hne|]. split; [reflexivity|].
    exact (H2 _ _ _ _ _ _ _ _ blank Hne eq_refl).
Defined.

(** C1, the counterexample: recording an address that is already in the
    ledger with new metadata leaves the metadata of the first call in the
    entry; those passed to the second call are dropped. *)
Lemma record_present_keeps_first_metadata :
  "203.0.113.7" ∈ ip <$> ipHistory (updateHistory host "t1" "203.0.113.7" (geo "Paris") blank).2
  ∧ ipHistory
      (updateHistory host "t2" "203.0.113.7" (geo "Lyon")
         (updateHistory host "t1" "203.0.113.7" (geo "Paris") blank).2).2
    = [ {| ip := "203.0.113.7"; data := geo "Paris"; timestamp := "t2" |} ]
  ∧ geo "Paris" ≠ geo "Lyon".
Proof.
  rewrite !updateHistory_run. simpl.
  split; [|split].
  - vm_compute. left.
  - reflexivity.
  - discriminate.
Qed.

Lemma ledger_after_fresh now a d h :
  a ∉ ip <$> h →
  ledger_after now a d h = trimmed ({| ip := a; data := d; timestamp := now |} :: h).
Proof. intros Ha. unfold ledger_after. by rewrite promoted_absent. Qed.

Ltac fresh_address :=
  simpl; rewrite ?not_elem_of_cons; repeat split;
  try apply not_elem_of_nil; intuition congruence.

(** C5. When the address is not in the ledger, [updateHistory] puts a new
    entry (address, metadata, timestamp) at position 0 and, if the ledger
    then has more than 5 entries, drops the last one. Six calls with six
    different addresses on an empty ledger leave exactly the last five,
    the most recent first; the first address is gone. *)
Theorem record_absent env :
  (∀ now a d w,
     a ∉ ip <$> ipHistory w →
     (updateHistory env now a d w).1 = Ok tt
     ∧ ipHistory (updateHistory env now a d w).2 =
         if 5 <? length ({| ip := a; data := d; timestamp := now |} :: ipHistory w)
         then pop ({| ip := a; data := d; timestamp := now |} :: ipHistory w)
         else {| ip := a; data := d; timestamp := now |} :: ipHistory w)
  ∧ (∀ a1 a2 a3 a4 a5 a6 d1 d2 d3 d4 d5 d6 t1 t2 t3 t4 t5 t6 w,
       NoDup [a1; a2; a3; a4; a5; a6] →
       ipHistory w = [] →
       ipHistory (record_all env [(t1, a1, d1); (t2, a2, d2); (t3, a3, d3);
                                  (t4, a4, d4); (t5, a5, d5); (t6, a6, d6)] w).2 =
         [ {| ip := a6; data := d6; timestamp := t6 |};
           {| ip := a5; data := d5; timestamp := t5 |};
           {| ip := a4; data := d4; timestamp := t4 |};
           {| ip := a3; data := d3; timestamp := t3 |};
           {| ip := a2; data := d2; timestamp := t2 |} ]).
Proof.
  split.
  - intros now a d w Ha. rewrite updateHistory_run. simpl.
    split; [done|]. by rewrite ledger_after_fresh.
  - intros a1 a2 a3 a4 a5 a6 d1 d2 d3 d4 d5 d6 t1 t2 t3 t4 t5 t6 w Hnd Hw.
    destruct (record_all_run env [(t1, a1, d1); (t2, a2, d2); (t3, a3, d3);
                                  (t4, a4, d4); (t5, a5, d5); (t6, a6, d6)] w)
      as (_ & -> & _).
    rewrite Hw. unfold ledger_after_all. simpl.
    apply NoDup_cons in Hnd as [H1 Hnd]. apply NoDup_cons in Hnd as [H2 Hnd].
    apply NoDup_cons in Hnd as [H3 Hnd]. apply NoDup_cons in Hnd as [H4 Hnd].
    apply NoDup_cons in Hnd as [H5 _].
    repeat (apply not_elem_of_cons in H1 as [? H1]).
    repeat (apply not_elem_of_cons in H2 as [? H2]).
    repeat (apply not_elem_of_cons in H3 as [? H3]).
    repeat (apply not_elem_of_cons in H4 as [? H4]).
    repeat (apply not_elem_of_cons in H5 as [? H5]).
    rewrite (ledger_after_fresh t1 a1) by fresh_address.
    rewrite trimmed_short by (simpl; unfold MAX_IP_HISTORY; lia).
    rewrite (ledger_after_fresh t2 a2) by fresh_address.
    rewrite trimmed_short by (simpl; unfold MAX_IP_HISTORY; lia).
    rewrite (ledger_after_fresh t3 a3) by fresh_address.
    rewrite trimmed_short by (simpl; unfold MAX_IP_HISTORY; lia).
    rewrite (ledger_after_fresh t4 a4) by fresh_address.
    rewrite trimmed_short by (simpl; unfold MAX_IP_HISTORY; lia).
    rewrite (ledger_after_fresh t5 a5) by fresh_address.
    rewrite trimmed_short by (simpl; unfold MAX_IP_HISTORY; lia).
    rewrite (ledger_after_fresh t6 a6) by fresh_address.
    reflexivity.
Qed.

Lemma record_absent_witness :
  (("192.0.2.44" ∉ ip <$> ipHistory two_seen)
   ∧ (ip <$> ipHistory (updateHistory host "t3" "192.0.2.44" (geo "Rome") two_seen).2)
     = ["192.0.2.44"; "198.51.100.9"; "203.0.113.7"])
  ∧ NoDup ["10.0.0.1"; "10.0.0.2"; "10.0.0.3"; "10.0.0.4"; "10.0.0.5"; "10.0.0.6"]
  ∧ ip <$> ipHistory
      (record_all host [("t1", "10.0.0.1", geo "a"); ("t2", "10.0.0.2", geo "b");
                        ("t3", "10.0.0.3", geo "c"); ("t4", "10.0.0.4", geo "d");
                        ("t5", "10.0.0.5", geo "e"); ("t6", "10.0.0.6", geo "f")] blank).2
    = ["10.0.0.6"; "10.0.0.5"; "10.0.0.4"; "10.0.0.3"; "10.0.0.2"].
Proof.
  assert (Hout : "192.0.2.44" ∉ ip <$> ipHistory two_seen).
  { apply (bool_decide_unpack (_ ∉ _)). vm_compute. exact I. }
  assert (Hnd : NoDup ["10.0.0.1"; "10.0.0.2"; "10.0.0.3"; "10.0.0.4"; "10.0.0.5"; "10.0.0.6"]).
  { apply (bool_decide_unpack (NoDup _)). vm_compute. exact I. }
  destruct (record_absent host) as [H1 H2].
  split.
  - split; [exact Hout|].
    destruct (H1 "t3" "192.0.2.44" (geo "Rome") two_seen Hout) as [_ ->].
    reflexivity.
  - split; [exact Hnd|].
    rewrite (H2 _ _ _ _ _ _ _ _ _ _ _ _ _ _ _ _ _ _ blank Hnd eq_refl).
    reflexivity.
Defined.

(** *** The order of the ledger *)

Lemma filter_other_id (a : string) (l : list string) :
  a ∉ l → filter (λ b, b ≠ a) l = l.
Proof.
  induction l as [|x l IH]; intros Ha; [done|].
  apply not_elem_of_cons in Ha as [Hne Ha].
  rewrite filter_cons_True by done. by rewrite IH.
Qed.

Lemma promoted_filter now a d h :
  NoDup (ip <$> h) →
  ip <$> promoted now a d h = a :: filter (λ b, b ≠ a) (ip <$> h).
Proof.
  intros Hnd. destruct (decide (a ∈ ip <$> h)) as [Ha|Ha].
  - destruct (find_present _ _ Ha) as (i & item & Hf).
    rewrite (promoted_present _ _ _ _ _ _ Hf). simpl. f_equal.
    apply list_find_Some in Hf as (Hi & Hip & _).
    pose proof (take_drop_middle h i item Hi) as Hh. rewrite delete_take_drop.
    set (l1 := take i h) in *. set (l2 := drop (S i) h) in *.
    clearbody l1 l2. subst h. clear Hi Ha.
    rewrite fmap_app, fmap_cons, Hip in Hnd. rewrite !fmap_app, fmap_cons, Hip.
    apply NoDup_app in Hnd as (_ & Hl & [Hr _]%NoDup_cons).
    rewrite filter_app, filter_cons_False by (by intros ?).
    rewrite !filter_other_id; [done|done|].
    intros Hin. apply (Hl a Hin). left.
  - rewrite promoted_absent by done. simpl. by rewrite filter_other_id.
Qed.

Lemma trimmed_take h :
  length h ≤ S MAX_IP_HISTORY → trimmed h = take MAX_IP_HISTORY h.
Proof.
  unfold trimmed, MAX_IP_HISTORY. intros Hlen.
  destruct (Nat.ltb_spec 5 (length h)).
  - rewrite pop_take. f_equal. lia.
  - by rewrite take_ge.
Qed.

Lemma take_filter_other (a : string) : ∀ (l : list string) n,
  NoDup l →
  take n (filter (λ b, b ≠ a) (take (S n) l)) = take n (filter (λ b, b ≠ a) l).
Proof.
  induction l as [|x l IH]; intros n Hnd; [done|].
  apply NoDup_cons in Hnd as [Hx Hnd]. rewrite firstn_cons.
  destruct (decide (x = a)) as [->|Hne].
  - rewrite !filter_cons_False by (by intros ?).
    rewrite !filter_other_id; [by rewrite take_idemp|done|].
    intros (j & Hj & _)%elem_of_take. apply Hx. by eapply list_elem_of_lookup_2.
  - rewrite !filter_cons_True by done.
    destruct n as [|n]; [done|]. simpl. f_equal. by apply IH.
Qed.

Lemma remove_dups_snoc (l : list string) (a : string) :
  remove_dups (l ++ [a]) = filter (λ b, b ≠ a) (remove_dups l) ++ [a].
Proof.
  induction l as [|x l IH]; [done|]. simpl.
  destruct (decide_rel elem_of x (l ++ [a])) as [Hin'|Hout'];
    destruct (decide_rel elem_of x l) as [Hin|Hout].
  - done.
  - apply elem_of_app in Hin' as [?|Heq%list_elem_of_singleton]; [done|]. subst x.
    by rewrite filter_cons_False by (by intros ?).
  - destruct Hout'. apply elem_of_app. by left.
  - rewrite filter_cons_True.
    + simpl. by rewrite IH.
    + intros ->. apply Hout', elem_of_app. right. by apply list_elem_of_singleton.
Qed.

Lemma by_recency_snoc calls now a d :
  by_recency (calls ++ [(now, a, d)]) = a :: filter (λ b, b ≠ a) (by_recency calls).
Proof.
  unfold by_recency, addresses. rewrite fmap_app. simpl.
  rewrite remove_dups_snoc, reverse_snoc. by rewrite filter_reverse.
Qed.

Lemma by_recency_NoDup calls : NoDup (by_recency calls).
Proof.
  unfold by_recency. rewrite reverse_Permutation. apply NoDup_remove_dups.
Qed.

(** On an empty ledger, the addresses of the ledger after any series of
    calls are the [MAX_IP_HISTORY] most recently recorded ones, each once,
    the most recent first: the order is the order of the last promotion. *)
Lemma ledger_by_recency calls :
  ip <$> ledger_after_all calls [] = take MAX_IP_HISTORY (by_recency calls).
Proof.
  induction calls as [|[[now a] d] calls IH] using rev_ind; [done|].
  unfold ledger_after_all in *. rewrite foldl_snoc, by_recency_snoc.
  set (h := foldl _ [] calls) in *.
  assert (Hnd : NoDup (ip <$> h)).
  { rewrite IH. eapply sublist_NoDup; [|apply sublist_take].
    apply by_recency_NoDup. }
  unfold ledger_after. rewrite trimmed_take.
  - rewrite fmap_take, promoted_filter, IH by done.
    unfold MAX_IP_HISTORY. simpl. f_equal.
    by rewrite <- (take_filter_other a (by_recency calls) 4)
      by apply by_recency_NoDup.
  - rewrite promoted_length. assert (length h ≤ MAX_IP_HISTORY).
    { rewrite <- (length_fmap ip), IH, length_take. lia. }
    case_bool_decide; lia.
Qed.

(** C3. If the ledger is within its bound and free of duplicates before a
    call of [updateHistory] (as the empty ledger is), then the call returns
    and the ledger after it has at most 5 entries, no two of them with the
    same address, and the address just recorded at position 0. The order
    is the order of promotion: after any series of calls on an empty ledger
    the addresses are the 5 most recently recorded ones, the most recent
    first. *)
Theorem record_keeps_invariant env now a d w :
  ledger_ok (ipHistory w) →
  (updateHistory env now a d w).1 = Ok tt
  ∧ length (ipHistory (updateHistory env now a d w).2) ≤ 5
  ∧ NoDup (ip <$> ipHistory (updateHistory env now a d w).2)
  ∧ ip <$> ipHistory (updateHistory env now a d w).2 !! 0 = Some a
  ∧ (∀ calls w0,
       ipHistory w0 = [] →
       ip <$> ipHistory (record_all env calls w0).2 = take 5 (by_recency calls)).
Proof.
  intros Hok. rewrite updateHistory_run. simpl.
  destruct (ledger_after_ok now a d _ Hok) as [Hlen Hnd].
  split; [done|]. split; [done|]. split; [done|]. split.
  - rewrite <- head_lookup. apply ledger_after_head.
  - intros calls w0 Hw0. destruct (record_all_run env calls w0) as (_ & -> & _).
    rewrite Hw0. apply ledger_by_recency.
Qed.

Lemma record_keeps_invariant_witness :
  ledger_ok (ipHistory five_seen)
  ∧ (ip <$> ipHistory (updateHistory host "t6" "192.0.2.6" (geo "Bonn") five_seen).2
     = ["192.0.2.6"; "192.0.2.5"; "192.0.2.4"; "192.0.2.3"; "192.0.2.2"]
     ∧ length (ipHistory (updateHistory host "t6" "192.0.2.6" (geo "Bonn") five_seen).2) ≤ 5
     ∧ NoDup (ip <$> ipHistory (updateHistory host "t6" "192.0.2.6" (geo "Bonn") five_seen).2)
     ∧ ip <$> ipHistory (updateHistory host "t6" "192.0.2.6" (geo "Bonn") five_seen).2 !! 0
       = Some "192.0.2.6")
  ∧ (ip <$> ipHistory (updateHistory host "t6" "192.0.2.2" (geo "Bonn") five_seen).2
     = ["192.0.2.2"; "192.0.2.5"; "192.0.2.4"; "192.0.2.3"; "192.0.2.1"]
     ∧ length (ipHistory (updateHistory host "t6" "192.0.2.2" (geo "Bonn") five_seen).2) ≤ 5
     ∧ NoDup (ip <$> ipHistory (updateHistory host "t6" "192.0.2.2" (geo "Bonn") five_seen).2)
     ∧ ip <$> ipHistory (updateHistory host "t6" "192.0.2.2" (geo "Bonn") five_seen).2 !! 0
       = Some "192.0.2.2").
Proof.
  assert (H0 : ledger_ok (ipHistory five_seen)).
  { split; [simpl; unfold MAX_IP_HISTORY; lia|].
    apply (bool_decide_unpack (NoDup _)). vm_compute. exact I. }
  split; [exact H0|]. split.
  - destruct (record_keeps_invariant host "t6" "192.0.2.6" (geo "Bonn") five_seen H0)
      as (_ & H1 & H2 & H3 & _).
    split; [reflexivity|]. split; [exact H1|]. split; [exact H2 | exact H3].
  - destruct (record_keeps_invariant host "t6" "192.0.2.2" (geo "Bonn") five_seen H0)
      as (_ & H1 & H2 & H3 & _).
    split; [reflexivity|]. split; [exact H1|]. split; [exact H2 | exact H3].
Defined.

(** ** MetadataResolver: [getGeolocation] *)

Lemma onload_cases env now a parsed w :
  onload env now a parsed w = (Ok None, w)
  ∨ ∃ json d, parsed = Ok json
              ∧ build_data env json = Ok (Some d)
              ∧ onload env now a parsed w = (Ok (Some d), (updateHistory env now a d w).2).
Proof.
  unfold onload, try_catch, bind, lift, ret.
  destruct parsed as [json|e]; [|by left].
  destruct (build_data env json) as [[d|]|e] eqn:Hb; [|by left..].
  right. exists json, d. rewrite updateHistory_run. by simpl.
Qed.

Lemma build_data_error env json :
  match prop json "error" with
  | Throw _ => True
  | Ok err => truthy err = true
  end →
  build_data env json = Ok None ∨ ∃ e, build_data env json = Throw e.
Proof.
  unfold build_data. destruct (prop json "error") as [err|e]; [|by eauto].
  intros ->. by left.
Qed.

Lemma getGeolocation_start_settled env a v :
  getGeolocation_start env a = Settled v → v = None.
Proof.
  unfold getGeolocation_start. destruct (String.eqb a ""); [by intros [= <-]|].
  destruct (negb _); [by intros [= <-]|done].
Qed.

Lemma onload_failure env now a parsed w :
  resolution_fails (OnLoad parsed) → onload env now a parsed w = (Ok None, w).
Proof.
  intros Hfail. unfold onload, try_catch, bind, lift, ret.
  destruct parsed as [json|e]; [|done]. simpl in Hfail.
  by destruct (build_data_error env json Hfail) as [->|[e ->]].
Qed.


(** Every object counts as true, so an error object is always a failure. *)
Lemma error_object_fails fields details :
  field "error" fields = JObj details →
  resolution_fails (OnLoad (Ok (JObj fields))).
Proof. intros H. simpl. by rewrite H. Qed.

Lemma build_data_run env json :
  build_data env json =
    match json with
    | JNull | JUndefined => Throw TypeError
    | _ =>
        if truthy (member json "error") then Ok None
        else match country_name env json with
             | Ok c => Ok (Some (normalised json c))
             | Throw e => Throw e
             end
    end.
Proof.
  unfold build_data, country_name, normalised, member.
  destruct json; reflexivity.
Qed.

Lemma onload_run env now a parsed w :
  onload env now a parsed w =
    match parsed with
    | Ok json =>
        match build_data env json with
        | Ok (Some d) => (Ok (Some d), (updateHistory env now a d w).2)
        | _ => (Ok None, w)
        end
    | Throw _ => (Ok None, w)
    end.
Proof.
  unfold onload, try_catch, bind, lift, ret.
  destruct parsed as [json|e]; [|done].
  destruct (build_data env json) as [[d|]|e]; [|done..].
  by rewrite updateHistory_run.
Qed.

Lemma getGeolocation_run env now a reply w :
  getGeolocation env now a reply w =
    if String.eqb a "" then (Ok None, w)
    else if negb (has_GM_xmlhttpRequest env) then (Ok None, w)
    else match reply with
         | OnLoad parsed => onload env now a parsed w
         | OnError => (Ok None, w)
         end.
Proof.
  unfold getGeolocation, getGeolocation_start.
  destruct (String.eqb a ""); [reflexivity|].
  destruct (negb _); [reflexivity|]. by destruct reply.
Qed.

(** C4. Whatever the address and the state, when the lookup fails, by a
    transport error, by a response text that is not JSON, by a response
    that parses to [null], by a response whose [error] field holds a value
    that counts as true, or by a response whose country code the display
    names reject, the promise of [getGeolocation] is resolved with
    [null]: no exception reaches the caller, and the world (ledger, last
    reported address, storage, session set) is as it was. Every other
    response to a lookup that was requested is a success, a body that is
    not an object and a body with an [error] field that counts as false
    included: the promise is resolved with the normalised data and the
    address is recorded. *)
Theorem resolve_failure env now a reply w :
  (resolution_fails reply
   ∨ (∃ json e, reply = OnLoad (Ok json) ∧ country_name env json = Throw e) →
   getGeolocation env now a reply w = (Ok None, w)
   ∧ ipHistory (getGeolocation env now a reply w).2 = ipHistory w
   ∧ lastReportedIP (getGeolocation env now a reply w).2 = lastReportedIP w)
  ∧ (∀ json c,
       reply = OnLoad (Ok json) →
       ¬ resolution_fails reply →
       country_name env json = Ok c →
       a ≠ "" →
       has_GM_xmlhttpRequest env = true →
       getGeolocation env now a reply w
       = (Ok (Some (normalised json c)),
          (updateHistory env now a (normalised json c) w).2)
       ∧ lastReportedIP (getGeolocation env now a reply w).2 = Some a
       ∧ ip <$> head (ipHistory (getGeolocation env now a reply w).2) = Some a).
Proof.
  split.
  - intros Hfail.
    assert (Hrun : getGeolocation env now a reply w = (Ok None, w)).
    { destruct Hfail as [Hfail|(json & e & -> & Hc)].
      - unfold getGeolocation.
        destruct (getGeolocation_start env a) as [v|url] eqn:Hs.
        + (* no address, or no GM_xmlhttpRequest: resolved at once *)
          by rewrite (getGeolocation_start_settled _ _ _ Hs).
        + destruct reply as [parsed|].
          * (* onload: JSON.parse or the error test ends the handler *)
            by apply onload_failure.
          * (* onerror *)
            reflexivity.
      - (* regionNames.of throws inside the try *)
        rewrite getGeolocation_run.
        destruct (String.eqb a ""); [done|].
        destruct (negb _); [done|].
        rewrite onload_run, build_data_run.
        destruct json; try done;
          (destruct (truthy (member _ "error")); [done|]); by rewrite Hc. }
    by rewrite Hrun.
  - intros json c -> Hnf Hc Ha Hx.
    assert (Hrun : getGeolocation env now a (OnLoad (Ok json)) w
                   = (Ok (Some (normalised json c)),
                      (updateHistory env now a (normalised json c) w).2)).
    { rewrite getGeolocation_run.
      destruct (String.eqb_spec a "") as [->|_]; [done|].
      rewrite Hx. simpl. rewrite onload_run, build_data_run.
      destruct json; try (by destruct Hnf);
        (destruct (truthy (member _ "error")) eqn:Herr; [by destruct Hnf|]);
        by rewrite Hc. }
    rewrite Hrun. split; [done|]. rewrite updateHistory_run. simpl.
    split; [done|]. apply ledger_after_head.
Qed.

Lemma resolve_failure_witness :
  (resolution_fails
     (OnLoad (Ok (JObj [("error", JObj [("title", JStr "Wrong ip");
                                        ("message", JStr "Please provide a valid IP address")])])))
   ∧ getGeolocation host "t1" "203.0.113.7"
       (OnLoad (Ok (JObj [("error", JObj [("title", JStr "Wrong ip");
                                          ("message", JStr "Please provide a valid IP address")])])))
       two_seen = (Ok None, two_seen))
  ∧ (country_name host (JObj [("ip", JStr "203.0.113.7"); ("country", JStr "1")])
     = Throw RangeError
     ∧ getGeolocation host "t1" "203.0.113.7"
         (OnLoad (Ok (JObj [("ip", JStr "203.0.113.7"); ("country", JStr "1")])))
         two_seen = (Ok None, two_seen))
  ∧ (¬ resolution_fails (OnLoad (Ok (JObj [("error", JNum 0); ("country", JStr "FR")])))
     ∧ country_name host (JObj [("error", JNum 0); ("country", JStr "FR")])
       = Ok (JStr "France")
     ∧ lastReportedIP
         (getGeolocation host "t1" "203.0.113.7"
            (OnLoad (Ok (JObj [("error", JNum 0); ("country", JStr "FR")]))) two_seen).2
       = Some "203.0.113.7").
Proof.
  assert (H1 : resolution_fails
                 (OnLoad (Ok (JObj [("error",
                    JObj [("title", JStr "Wrong ip");
                          ("message", JStr "Please provide a valid IP address")])]))))
    by reflexivity.
  assert (H2 : country_name host (JObj [("ip", JStr "203.0.113.7"); ("country", JStr "1")])
               = Throw RangeError) by reflexivity.
  assert (H3 : ¬ resolution_fails
                   (OnLoad (Ok (JObj [("error", JNum 0); ("country", JStr "FR")]))))
    by (simpl; discriminate).
  assert (H4 : country_name host (JObj [("error", JNum 0); ("country", JStr "FR")])
               = Ok (JStr "France")) by reflexivity.
  assert (H5 : "203.0.113.7" ≠ "") by discriminate.
  split; [|split].
  - split; [exact H1|].
    exact (proj1 (proj1 (resolve_failure host "t1" "203.0.113.7" _ two_seen)
                    (or_introl H1))).
  - split; [exact H2|].
    exact (proj1 (proj1 (resolve_failure host "t1" "203.0.113.7" _ two_seen)
                    (or_intror (ex_intro _ _ (ex_intro _ _ (conj eq_refl H2)))))).
  - split; [exact H3|]. split; [exact H4|].
    exact (proj1 (proj2 (proj2 (resolve_failure host "t1" "203.0.113.7" _ two_seen)
                           _ _ eq_refl H3 H4 H5 eq_refl))).
Defined.

(** The claim as the specification words it fails on two kinds of
    response: a body with an explicit [error] field whose value counts as
    false, and a body that is JSON but no object. On both the lookup
    resolves with data and the address is recorded: the ledger and the
    last reported address change. *)
Example falsy_error_and_plain_body_are_recorded :
  (getGeolocation host "t1" "203.0.113.7"
     (OnLoad (Ok (JObj [("error", JBool false)]))) blank).1 = Ok (Some nothing_known)
  ∧ lastReportedIP (getGeolocation host "t1" "203.0.113.7"
                      (OnLoad (Ok (JObj [("error", JBool false)]))) blank).2
    = Some "203.0.113.7"
  ∧ ip <$> ipHistory (getGeolocation host "t1" "203.0.113.7"
                        (OnLoad (Ok (JObj [("error", JBool false)]))) blank).2
    = ["203.0.113.7"]
  ∧ (getGeolocation host "t1" "203.0.113.7" (OnLoad (Ok (JNum 42))) blank).1
    = Ok (Some nothing_known)
  ∧ lastReportedIP (getGeolocation host "t1" "203.0.113.7" (OnLoad (Ok (JNum 42))) blank).2
    = Some "203.0.113.7"
  ∧ ip <$> ipHistory (getGeolocation host "t1" "203.0.113.7"
                        (OnLoad (Ok (JNum 42))) blank).2
    = ["203.0.113.7"]
  ∧ lastReportedIP blank = None
  ∧ ipHistory blank = [].
Proof.
  repeat split; reflexivity.
Qed.

(** A successful lookup, for comparison: the data are built, recorded and
    returned. *)
Example resolve_success :
  getGeolocation host "t1" "203.0.113.7"
    (OnLoad (Ok (JObj [("ip", JStr "203.0.113.7"); ("country", JStr "FR");
                       ("city", JStr "Paris")]))) blank
  = (Ok (Some {| IP_Address := JStr "203.0.113.7"; Country := JStr "France";
                 Region := JStr "N/A"; City := JStr "Paris"; Location := JStr "N/A";
                 ISP := JStr "N/A"; Hostname := JStr "N/A"; VPN_Proxy := JStr "No" |}),
     {| storage :=
          <[STORAGE_KEY_IP := StAddress "203.0.113.7"]>
            (<[STORAGE_KEY_HISTORY :=
                 StHistory [ {| ip := "203.0.113.7";
                                data := {| IP_Address := JStr "203.0.113.7";
                                           Country := JStr "France";
                                           Region := JStr "N/A"; City := JStr "Paris";
                                           Location := JStr "N/A"; ISP := JStr "N/A";
                                           Hostname := JStr "N/A"; VPN_Proxy := JStr "No" |};
                                timestamp := "t1" |} ]]> ∅);
        ipHistory := [ {| ip := "203.0.113.7";
                          data := {| IP_Address := JStr "203.0.113.7";
                                     Country := JStr "France";
                                     Region := JStr "N/A"; City := JStr "Paris";
                                     Location := JStr "N/A"; ISP := JStr "N/A";
                                     Hostname := JStr "N/A"; VPN_Proxy := JStr "No" |};
                          timestamp := "t1" |} ];
        lastReportedIP := Some "203.0.113.7";
        detectedIps := ∅ |}).
Proof. reflexivity. Qed.

(** ** NoveltyFilter: [admit_address] *)

Lemma admit_novel a w :
  novel a w → admit_address a w = (Ok true, set_detectedIps ({[a]} ∪ detectedIps w) w).
Proof.
  intros [Hlast Hset]. unfold admit_address, bind, get, put, ret.
  by rewrite (bool_decide_eq_true_2 _ Hlast), (bool_decide_eq_true_2 _ Hset).
Qed.

Lemma admit_stale a w :
  ¬ novel a w → admit_address a w = (Ok false, w).
Proof.
  intros Hn. unfold admit_address, bind, get, put, ret.
  destruct (bool_decide_reflect (Some a ≠ lastReportedIP w)); [|done].
  destruct (bool_decide_reflect (a ∉ detectedIps w)); [|done].
  by destruct Hn.
Qed.

Lemma admit_seen a w :
  a ∈ detectedIps w → admit_address a w = (Ok false, w).
Proof. intros Ha. apply admit_stale. by intros [_ ?]. Qed.

Lemma admit_grows a b w :
  b ∈ detectedIps w → b ∈ detectedIps (admit_address a w).2.
Proof.
  intros Hb. destruct (decide (novel a w)) as [Hn|Hn].
  - rewrite (admit_novel _ _ Hn). simpl. set_solver.
  - by rewrite (admit_stale _ _ Hn).
Qed.

Lemma detect_grows env ice b w :
  b ∈ detectedIps w → b ∈ detectedIps (detect env ice w).2.
Proof.
  intros Hb. unfold detect, bind, lift, ret.
  destruct (candidate_of ice) as [record|e]; [|done]. simpl.
  destruct (classify record) as [a|]; [|done].
  pose proof (admit_grows a b w Hb) as Hg.
  destruct (admit_address a w) as [[[|]|e] w']; simpl in *; [|done..].
  by destruct (getGeolocation_start env a).
Qed.

Lemma handle_returns env e w : (handle env e w).1 = Ok tt.
Proof.
  destruct e as [ice|a parsed now|a]; simpl; unfold try_catch, bind, ret.
  - by destruct (detect env ice w) as [[r|ex] w'].
  - by destruct (onload_cases env now a parsed w) as [->|(json & d & _ & _ & ->)].
  - done.
Qed.

Lemma handle_grows env e b w :
  b ∈ detectedIps w → b ∈ detectedIps (handle env e w).2.
Proof.
  intros Hb. destruct e as [ice|a parsed now|a]; simpl; unfold try_catch, bind, ret.
  - pose proof (detect_grows env ice b w Hb) as Hg.
    by destruct (detect env ice w) as [[r|ex] w'].
  - destruct (onload_cases env now a parsed w) as [->|(json & d & _ & _ & ->)]; [done|].
    by rewrite updateHistory_run.
  - done.
Qed.

Lemma handle_all_returns env es w : (handle_all env es w).1 = Ok tt.
Proof.
  revert w. induction es as [|e es IH]; intros w; [done|].
  simpl. unfold bind. pose proof (handle_returns env e w) as He.
  destruct (handle env e w) as [r w']. simpl in He. subst r. apply IH.
Qed.

Lemma handle_all_grows env es b w :
  b ∈ detectedIps w → b ∈ detectedIps (handle_all env es w).2.
Proof.
  revert w. induction es as [|e es IH]; intros w Hb; [done|].
  simpl. unfold bind. pose proof (handle_returns env e w) as He.
  pose proof (handle_grows env e b w Hb) as Hg.
  destruct (handle env e w) as [r w']. simpl in *. subst r. by apply IH.
Qed.

(** C6. [admit_address] answers true exactly when the address differs from the
    last reported address and is not in the session set; it then adds the
    address to the session set and changes nothing else. Once an address
    has been admitted, admitting it again answers false, at once and after
    any further events of the same session. The last reported address
    comes from the persisted state: a page load starts with an empty
    session set; when an address is stored under [STORAGE_KEY_IP] and the
    storage can be read, that address is the last reported one and it is
    the only address the first admission refuses; when nothing is stored
    or the storage cannot be read, every address is admitted. What is
    stored there is what [updateHistory] was last called with: after a
    session that recorded [b], the next page load refuses [b] and admits
    every other address. *)
Theorem admit_spec a w :
  ((admit_address a w).1 = Ok true ↔ Some a ≠ lastReportedIP w ∧ a ∉ detectedIps w)
  ∧ ((admit_address a w).1 = Ok false ↔ ¬ (Some a ≠ lastReportedIP w ∧ a ∉ detectedIps w))
  ∧ ((admit_address a w).1 = Ok true →
       (admit_address a w).2 = set_detectedIps ({[a]} ∪ detectedIps w) w
       ∧ ∀ env es, admit_address a (handle_all env es (admit_address a w).2).2
                   = (Ok false, (handle_all env es (admit_address a w).2).2))
  ∧ ((admit_address a w).1 = Ok false → (admit_address a w).2 = w)
  ∧ (∀ env store w0,
       main env store = Ok w0 →
       detectedIps w0 = ∅
       ∧ (GM_getValue_fn (backend env) ≠ GM_works ∨ store !! STORAGE_KEY_IP = None →
          lastReportedIP w0 = None ∧ (admit_address a w0).1 = Ok true)
       ∧ (∀ b, GM_getValue_fn (backend env) = GM_works →
               store !! STORAGE_KEY_IP = Some (StAddress b) →
               lastReportedIP w0 = Some b
               ∧ ((admit_address a w0).1 = Ok true ↔ a ≠ b)))
  ∧ (∀ env now b d w1 w0,
       GM_getValue_fn (backend env) = GM_works →
       GM_setValue_fn (backend env) = GM_works →
       main env (storage (updateHistory env now b d w1).2) = Ok w0 →
       ((admit_address a w0).1 = Ok true ↔ a ≠ b)).
Proof.
  assert (Hiff : ∀ w', (admit_address a w').1 = Ok true ↔ novel a w').
  { intros w'. destruct (decide (novel a w')) as [Hn|Hn].
    - by rewrite (admit_novel _ _ Hn).
    - rewrite (admit_stale _ _ Hn). simpl. by split. }
  assert (Hload : ∀ env store w0,
            main env store = Ok w0 →
            detectedIps w0 = ∅
            ∧ (GM_getValue_fn (backend env) ≠ GM_works ∨ store !! STORAGE_KEY_IP = None →
               lastReportedIP w0 = None ∧ (admit_address a w0).1 = Ok true)
            ∧ (∀ b, GM_getValue_fn (backend env) = GM_works →
                    store !! STORAGE_KEY_IP = Some (StAddress b) →
                    lastReportedIP w0 = Some b
                    ∧ ((admit_address a w0).1 = Ok true ↔ a ≠ b))).
  { intros env store w0. rewrite main_run. intros [= <-]. simpl.
    split; [done|]. split.
    - intros Hnone.
      assert (Hlast : as_address
                        match GM_getValue_fn (backend env) with
                        | GM_works => default StNull (store !! STORAGE_KEY_IP)
                        | _ => StNull
                        end = None).
      { destruct Hnone as [Hbe| ->]; by destruct (GM_getValue_fn (backend env)). }
      split; [exact Hlast|]. apply Hiff. split; simpl; [by rewrite Hlast|].
      apply not_elem_of_empty.
    - intros b -> ->. simpl. split; [done|]. rewrite Hiff. unfold novel. simpl.
      split.
      + intros [Hne _] ->. by apply Hne.
      + intros Hne. split; [by intros [= ->]|]. apply not_elem_of_empty. }
  assert (Hnext : ∀ env now b d w1 w0,
            GM_getValue_fn (backend env) = GM_works →
            GM_setValue_fn (backend env) = GM_works →
            main env (storage (updateHistory env now b d w1).2) = Ok w0 →
            ((admit_address a w0).1 = Ok true ↔ a ≠ b)).
  { intros env now b d w1 w0 Hget Hset Hmain.
    destruct (Hload env _ w0 Hmain) as (_ & _ & Hb).
    apply (Hb b Hget). rewrite updateHistory_run. simpl. unfold stored_after.
    rewrite Hset. by rewrite lookup_insert_eq. }
  destruct (decide (novel a w)) as [Hn|Hn].
  - rewrite (admit_novel _ _ Hn). simpl.
    split; [done|]. split; [by split|]. split; [|done].
    intros _. split; [done|]. intros env es.
    apply admit_seen, handle_all_grows. simpl.
    apply elem_of_union_l. by apply elem_of_singleton.
  - rewrite (admit_stale _ _ Hn). simpl.
    split; [by split|]. split; [done|]. by split.
Qed.

Lemma admit_spec_witness :
  ((admit_address "203.0.113.7" blank).1 = Ok true
   ∧ admit_address "203.0.113.7"
       (handle_all host [EvError "203.0.113.7"] (admit_address "203.0.113.7" blank).2).2
     = (Ok false,
        (handle_all host [EvError "203.0.113.7"] (admit_address "203.0.113.7" blank).2).2))
  ∧ (main host {[STORAGE_KEY_IP := StAddress "203.0.113.7"]}
     = Ok (set_lastReportedIP (Some "203.0.113.7")
             (set_storage {[STORAGE_KEY_IP := StAddress "203.0.113.7"]} blank))
     ∧ (admit_address "203.0.113.7"
          (set_lastReportedIP (Some "203.0.113.7")
             (set_storage {[STORAGE_KEY_IP := StAddress "203.0.113.7"]} blank))).1
       ≠ Ok true)
  ∧ (GM_getValue_fn (backend host) = GM_works
     ∧ GM_setValue_fn (backend host) = GM_works
     ∧ main host (storage (updateHistory host "t1" "198.51.100.9" (geo "Oslo") blank).2)
       = Ok (set_detectedIps ∅ (updateHistory host "t1" "198.51.100.9" (geo "Oslo") blank).2)
     ∧ (admit_address "203.0.113.7"
          (set_detectedIps ∅
             (updateHistory host "t1" "198.51.100.9" (geo "Oslo") blank).2)).1
       = Ok true).
Proof.
  split; [|split].
  - assert (H : (admit_address "203.0.113.7" blank).1 = Ok true) by (vm_compute; reflexivity).
    split; [exact H|].
    destruct (admit_spec "203.0.113.7" blank) as (_ & _ & H3 & _).
    destruct (H3 H) as [_ H4]. exact (H4 host [EvError "203.0.113.7"]).
  - assert (Hm : main host {[STORAGE_KEY_IP := StAddress "203.0.113.7"]}
                 = Ok (set_lastReportedIP (Some "203.0.113.7")
                         (set_storage {[STORAGE_KEY_IP := StAddress "203.0.113.7"]} blank)))
      by reflexivity.
    split; [exact Hm|].
    destruct (admit_spec "203.0.113.7" blank) as (_ & _ & _ & _ & H5 & _).
    destruct (H5 host _ _ Hm) as (_ & _ & Hb).
    destruct (Hb "203.0.113.7" eq_refl eq_refl) as [_ Hiff].
    intros Ht. by apply (proj1 Hiff Ht).
  - assert (H1 : GM_getValue_fn (backend host) = GM_works) by reflexivity.
    assert (H2 : GM_setValue_fn (backend host) = GM_works) by reflexivity.
    assert (Hm : main host (storage (updateHistory host "t1" "198.51.100.9" (geo "Oslo") blank).2)
                 = Ok (set_detectedIps ∅
                         (updateHistory host "t1" "198.51.100.9" (geo "Oslo") blank).2))
      by reflexivity.
    split; [exact H1|]. split; [exact H2|]. split; [exact Hm|].
    destruct (admit_spec "203.0.113.7" blank) as (_ & _ & _ & _ & _ & H6).
    apply (H6 host "t1" "198.51.100.9" (geo "Oslo") blank _ H1 H2 Hm). discriminate.
Defined.




(** The scenario of three candidates in a row, a host candidate and twice
    the same server-reflexive one: one lookup is requested, and once it
    succeeds the ledger holds one entry for the address. *)
Example three_candidates :
  (requests_made host
     [IceObject (Some "candidate:1 1 udp 2122260223 10.0.0.2 50000 typ host");
      IceObject (Some "candidate:2 1 udp 1685987071 198.51.100.9 50001 typ srflx");
      IceObject (Some "candidate:2 1 udp 1685987071 198.51.100.9 50001 typ srflx")]
     blank).1
  = [None; Some "https://ipinfo.io/198.51.100.9?token=072a896dc04088"; None]
  ∧ ip <$> ipHistory
      (handle_all host
         [EvCandidate (IceObject (Some "candidate:1 1 udp 2122260223 10.0.0.2 50000 typ host"));
          EvCandidate (IceObject (Some "candidate:2 1 udp 1685987071 198.51.100.9 50001 typ srflx"));
          EvCandidate (IceObject (Some "candidate:2 1 udp 1685987071 198.51.100.9 50001 typ srflx"));
          EvLoad "198.51.100.9" (Ok (JObj [("ip", JStr "198.51.100.9"); ("country", JStr "US")])) "t1"]
         blank).2
    = ["198.51.100.9"].
Proof. split; vm_compute; reflexivity. Qed.

(** ** The ledger over page loads and events *)

Lemma ledger_ok_nil : ledger_ok [].
Proof. split; [simpl; unfold MAX_IP_HISTORY; lia|constructor]. Qed.

Lemma main_ok env store w :
  well_stored store → main env store = Ok w → world_ok w.
Proof.
  intros Hst. rewrite main_run. intros [= <-]. split; [|done]. simpl.
  destruct (GM_getValue_fn (backend env)); try apply ledger_ok_nil.
  destruct (store !! STORAGE_KEY_HISTORY) as [[| | h|]|] eqn:Hk; simpl;
    try apply ledger_ok_nil.
  by apply Hst.
Qed.

Lemma updateHistory_ok env now a d w :
  world_ok w → world_ok (updateHistory env now a d w).2.
Proof.
  intros [Hl Hs]. rewrite updateHistory_run. simpl.
  pose proof (ledger_after_ok now a d _ Hl) as Hl'.
  split; [done|]. simpl. unfold stored_after.
  destruct (GM_setValue_fn (backend env)); [done..|].
  intros h. rewrite lookup_insert_ne by done. rewrite lookup_insert_eq.
  by intros [= <-].
Qed.

Lemma detect_world env ice w :
  ∃ d, (detect env ice w).2 = set_detectedIps d w.
Proof.
  assert (Hid : w = set_detectedIps (detectedIps w) w) by by destruct w.
  unfold detect, bind, lift, ret.
  destruct (candidate_of ice) as [record|e]; simpl; [|by eexists].
  destruct (classify record) as [a|]; [|by eexists].
  destruct (decide (novel a w)) as [Hn|Hn].
  - rewrite (admit_novel _ _ Hn).
    destruct (getGeolocation_start env a); by eexists.
  - rewrite (admit_stale _ _ Hn). by eexists.
Qed.

Lemma handle_ok env e w : world_ok w → world_ok (handle env e w).2.
Proof.
  intros Hok. destruct e as [ice|a parsed now|a]; simpl; unfold try_catch, bind, ret.
  - destruct (detect_world env ice w) as [d Hd].
    destruct (detect env ice w) as [[r|ex] w']; simpl in Hd; by subst w'.
  - destruct (onload_cases env now a parsed w) as [->|(json & d & _ & _ & ->)]; [done|].
    by apply updateHistory_ok.
  - done.
Qed.

Lemma handle_all_ok env es w : world_ok w → world_ok (handle_all env es w).2.
Proof.
  revert w. induction es as [|e es IH]; intros w Hok; [done|].
  simpl. unfold bind. pose proof (handle_returns env e w) as He.
  pose proof (handle_ok env e w Hok) as Hok'.
  destruct (handle env e w) as [r w']. simpl in *. subst r. by apply IH.
Qed.

(** Every ledger a page load can reach is within the invariant, provided
    the history found in the storage is (as is the one [updateHistory]
    stores, and as is the empty storage). *)
Lemma ledger_ok_reachable env store es w0 :
  well_stored store → main env store = Ok w0 →
  ledger_ok (ipHistory (handle_all env es w0).2)
  ∧ well_stored (storage (handle_all env es w0).2).
Proof.
  intros Hst Hmain. apply handle_all_ok. by eapply main_ok.
Qed.

(** ** The hook *)

(** The hook does to the world what the candidate event does. *)
Lemma hook_world {PC Arg Ret : Type}
  (origAdd : PC → ice_arg → list Arg → result Ret) env this ice rest w calls :
  addIceCandidate origAdd env this ice rest (w, calls)
  = (origAdd this ice rest,
     ((handle env (EvCandidate ice) w).2, calls ++ [(this, ice, rest)])).
Proof.
  unfold addIceCandidate, call_original, handle, try_catch, bind, on_world, ret.
  by destruct (detect env ice w) as [[r|e] w'].
Qed.

(** C8. Every call of the hooked [addIceCandidate] calls the original
    function exactly once, with the receiver and the arguments of the call,
    and returns what the original returns (or throws what it throws),
    whatever the detection does; the log of calls grows by that one call.
    When the first argument is [null] the detection throws a TypeError,
    which the hook swallows, leaving the world as it was. The reply
    handlers never throw either. *)
Theorem hook_forwards {PC Arg Ret : Type}
  (origAdd : PC → ice_arg → list Arg → result Ret)
  (env : Env) (this : PC) (ice : ice_arg) (rest : list Arg)
  (w : World) (calls : list (PC * ice_arg * list Arg)) :
  (∃ w', addIceCandidate origAdd env this ice rest (w, calls)
         = (origAdd this ice rest, (w', calls ++ [(this, ice, rest)])))
  ∧ detect env IceNullish w = (Throw TypeError, w)
  ∧ addIceCandidate origAdd env this IceNullish rest (w, calls)
    = (origAdd this IceNullish rest, (w, calls ++ [(this, IceNullish, rest)]))
  ∧ (∀ e, (handle env e w).1 = Ok tt).
Proof.
  split; [|split; [|split]].
  - eexists. apply hook_world.
  - reflexivity.
  - reflexivity.
  - intros e. apply handle_returns.
Qed.

(** ** The matcher and the language of a pattern *)

Lemma one_some p s k res :
  one p s k = Some res → ∃ c s', s = c :: s' ∧ p c = true ∧ k s' = Some res.
Proof.
  destruct s as [|c s]; [done|]. simpl. destruct (p c) eqn:Hc; [|done]. eauto.
Qed.

Lemma one_none p c s k : one p (c :: s) k = None → p c = true → k s = None.
Proof. simpl. intros H Hc. by rewrite Hc in H. Qed.

Lemma rep_sound (m : matcher) (L : list ascii → Prop) :
  (∀ s k res, m s k = Some res → ∃ t s', s = t ++ s' ∧ L t ∧ k s' = Some res) →
  ∀ hi lo s k res,
    lo ≤ hi →
    rep m lo hi s k = Some res →
    ∃ t s', s = t ++ s' ∧ (∃ n, lo ≤ n ≤ hi ∧ pieces L n t) ∧ k s' = Some res.
Proof.
  intros Hm. induction hi as [|hi IH]; intros lo s k res Hlo Hrun; simpl in Hrun.
  - exists [], s. split; [done|]. split; [|done]. exists 0. split; [lia|done].
  - destruct (m s (λ s', rep m (pred lo) hi s' k)) as [r0|] eqn:E.
    + injection Hrun as ->.
      apply Hm in E as (t1 & s1 & -> & Ht1 & E).
      apply IH in E as (t2 & s2 & -> & (n & Hn & Ht2) & Hk); [|lia].
      exists (t1 ++ t2), s2. split; [by rewrite app_assoc|]. split; [|done].
      exists (S n). split; [lia|]. by exists t1, t2.
    + destruct (Nat.eqb_spec lo 0) as [->|]; [|done].
      exists [], s. split; [done|]. split; [|done]. exists 0. split; [lia|done].
Qed.

Lemma rep_complete (m : matcher) (L : list ascii → Prop) :
  (∀ s k, m s k = None → ∀ t s', s = t ++ s' → L t → k s' = None) →
  ∀ hi lo s k,
    rep m lo hi s k = None →
    ∀ t s' n, s = t ++ s' → lo ≤ n ≤ hi → pieces L n t → k s' = None.
Proof.
  intros Hm. induction hi as [|hi IH]; intros lo s k Hrun t s' n -> Hn Ht; simpl in Hrun.
  - assert (n = 0) as -> by lia. simpl in Ht. by subst t.
  - destruct (m (t ++ s') (λ s'', rep m (pred lo) hi s'' k)) as [r0|] eqn:E; [done|].
    destruct n as [|n].
    + simpl in Ht. subst t. assert (lo = 0) as -> by lia. done.
    + destruct Ht as (t1 & t2 & -> & Ht1 & Ht2).
      specialize (Hm _ _ E t1 (t2 ++ s')). rewrite <- app_assoc in Hm.
      specialize (Hm eq_refl Ht1). simpl in Hm.
      eapply IH; [exact Hm|done| |exact Ht2]. lia.
Qed.

(** The matcher is sound: what it consumes is a text of the pattern, and
    the continuation accepted what was left. *)
Lemma run_sound r :
  bounded r →
  ∀ s k res, run r s k = Some res →
             ∃ t s', s = t ++ s' ∧ lang r t ∧ k s' = Some res.
Proof.
  induction r as [|c|lo hi| |r1 IH1 r2 IH2|r IH lo hi|r IH]; intros Hb s k res Hrun.
  - by exists [], s.
  - apply one_some in Hrun as (c' & s' & -> & Hc & Hk).
    apply Ascii.eqb_eq in Hc as <-. by exists [c], s'.
  - apply one_some in Hrun as (c' & s' & -> & Hc & Hk).
    exists [c'], s'. split; [done|]. split; [by exists c'|done].
  - apply one_some in Hrun as (c' & s' & -> & Hc & Hk).
    exists [c'], s'. split; [done|]. split; [by exists c'|done].
  - destruct Hb as [Hb1 Hb2]. simpl in Hrun.
    apply (IH1 Hb1) in Hrun as (t1 & s1 & -> & Ht1 & Hrun).
    apply (IH2 Hb2) in Hrun as (t2 & s2 & -> & Ht2 & Hk).
    exists (t1 ++ t2), s2. split; [by rewrite app_assoc|]. split; [|done].
    by exists t1, t2.
  - destruct Hb as [Hlo Hb]. simpl in Hrun.
    by apply (rep_sound (run r) (lang r) (IH Hb)) in Hrun.
  - by apply IH.
Qed.

(** The matcher is complete: it fails only if the continuation refuses
    what is left after every text of the pattern at the front. *)
Lemma run_complete r :
  ∀ s k, run r s k = None →
         ∀ t s', s = t ++ s' → lang r t → k s' = None.
Proof.
  induction r as [|c|lo hi| |r1 IH1 r2 IH2|r IH lo hi|r IH]; intros s k Hrun t s' -> Ht.
  - simpl in Ht. by subst t.
  - simpl in Ht. subst t. eapply one_none; [exact Hrun|]. by apply Ascii.eqb_eq.
  - destruct Ht as (c & -> & Hc). exact (one_none (in_range lo hi) c s' k Hrun Hc).
  - destruct Ht as (c & -> & Hc). exact (one_none is_space c s' k Hrun Hc).
  - destruct Ht as (t1 & t2 & -> & Ht1 & Ht2). simpl in Hrun.
    specialize (IH1 _ _ Hrun t1 (t2 ++ s')). rewrite <- app_assoc in IH1.
    specialize (IH1 eq_refl Ht1). simpl in IH1. by eapply IH2.
  - destruct Ht as (n & Hn & Ht). simpl in Hrun.
    by eapply (rep_complete (run r) (lang r) IH).
  - by eapply IH.
Qed.

(** A pattern matches at the front of a string exactly when the string
    starts with a text of its language. *)
Lemma run_matches r s :
  bounded r →
  is_Some (run r s Some) ↔ ∃ t rest, s = t ++ rest ∧ lang r t.
Proof.
  intros Hb. split.
  - intros [res Hrun]. apply (run_sound r Hb) in Hrun as (t & s' & -> & Ht & _). eauto.
  - intros (t & rest & -> & Ht). destruct (run r (t ++ rest) Some) eqn:E; [by eexists|].
    by pose proof (run_complete r _ _ E t rest eq_refl Ht).
Qed.

Lemma pieces_one (p : ascii → bool) n t :
  pieces (λ t, ∃ c, t = [c] ∧ p c = true) n t
  ↔ length t = n ∧ Forall (λ c, p c = true) t.
Proof.
  revert t. induction n as [|n IH]; intros t; simpl.
  - split; [by intros ->|]. intros [Hlen _]. by destruct t.
  - split.
    + intros (t1 & t2 & -> & (c & -> & Hc) & Ht2). apply IH in Ht2 as [<- Hall].
      split; [done|]. by constructor.
    + intros [Hlen Hall]. destruct t as [|c t]; [done|].
      apply Forall_cons in Hall as [Hc Hall]. exists [c], t.
      split; [done|]. split; [by exists c|]. apply IH. split; [|done].
      simpl in Hlen. lia.
Qed.

Lemma lang_digits g : lang digits_1_3 g ↔ is_group g.
Proof.
  unfold digits_1_3, is_group. simpl. split.
  - intros (n & Hn & Hp). apply pieces_one in Hp as [<- Hall]. done.
  - intros [Hlen Hall]. exists (length g). split; [done|]. by apply pieces_one.
Qed.

Lemma lang_dot_digits t :
  lang dot_digits t ↔ ∃ g, is_group g ∧ t = "."%char :: g.
Proof.
  unfold dot_digits. cbn [lang]. split.
  - intros (t1 & t2 & -> & -> & Hg%lang_digits). by exists t2.
  - intros (g & Hg & ->). exists ["."%char], g. split; [done|]. split; [done|].
    by apply lang_digits.
Qed.

(** The language of the address pattern is the dotted quads, that of the
    type pattern the markers. *)
Lemma lang_ipv4 q : lang re_ipv4 q ↔ is_quad q.
Proof.
  unfold re_ipv4, is_quad. cbn [lang]. split.
  - intros (g1 & t & -> & Hg1%lang_digits & n & Hn & Hp).
    assert (n = 3) as -> by lia. simpl in Hp.
    destruct Hp as (d2 & t2 & -> & (g2 & Hg2 & ->)%lang_dot_digits & Hp).
    destruct Hp as (d3 & t3 & -> & (g3 & Hg3 & ->)%lang_dot_digits & Hp).
    destruct Hp as (d4 & t4 & -> & (g4 & Hg4 & ->)%lang_dot_digits & ->).
    exists g1, g2, g3, g4. split; [done|]. split; [done|]. split; [done|].
    split; [done|]. simpl. by rewrite app_nil_r.
  - intros (g1 & g2 & g3 & g4 & Hg1 & Hg2 & Hg3 & Hg4 & ->).
    exists g1, ("."%char :: g2 ++ "."%char :: g3 ++ "."%char :: g4).
    split; [done|]. split; [by apply lang_digits|]. exists 3. split; [lia|]. simpl.
    exists ("."%char :: g2), ("."%char :: g3 ++ "."%char :: g4).
    split; [done|]. split; [apply lang_dot_digits; by exists g2|].
    exists ("."%char :: g3), ("."%char :: g4).
    split; [done|]. split; [apply lang_dot_digits; by exists g3|].
    exists ("."%char :: g4), []. split; [by rewrite app_nil_r|].
    split; [apply lang_dot_digits; by exists g4|done].
Qed.

Lemma lang_typ_srflx m : lang re_typ_srflx m ↔ is_marker m.
Proof.
  unfold re_typ_srflx, is_marker. cbn [lang Str]. split.
  - intros (t1 & t2 & -> & (a1 & a2 & -> & -> & b1 & b2 & -> & -> & c1 & c2 & -> & -> & ->)
            & (w & t3 & -> & (c & -> & Hc) & Hs)).
    destruct Hs as (e1 & e2 & -> & -> & f1 & f2 & -> & -> & g1 & g2 & -> & ->
                    & h1 & h2 & -> & -> & i1 & i2 & -> & -> & ->).
    by exists c.
  - intros (c & Hc & ->).
    exists (chars "typ"), (c :: chars "srflx"). split; [done|]. split.
    + exists ["t"%char], (chars "yp"). split; [done|]. split; [done|].
      exists ["y"%char], (chars "p"). split; [done|]. split; [done|].
      exists ["p"%char], []. done.
    + exists [c], (chars "srflx"). split; [done|]. split; [by exists c|].
      exists ["s"%char], (chars "rflx"). split; [done|]. split; [done|].
      exists ["r"%char], (chars "flx"). split; [done|]. split; [done|].
      exists ["f"%char], (chars "lx"). split; [done|]. split; [done|].
      exists ["l"%char], (chars "x"). split; [done|]. split; [done|].
      exists ["x"%char], []. done.
Qed.

Lemma bounded_patterns : bounded re_typ_srflx ∧ bounded re_ipv4.
Proof. simpl. unfold bounded. simpl. repeat split; lia. Qed.

(** ** CandidateClassifier: the two patterns *)

Lemma rep_one_none p hi : ∀ lo s k,
  rep (one p) lo hi s k = None →
  ∀ g s', s = g ++ s' → Forall (λ c, p c = true) g → lo ≤ length g ≤ hi →
          k s' = None.
Proof.
  induction hi as [|hi IH]; intros lo s k Hrun g s' -> Hg Hlen.
  - destruct g; simpl in *; [done|lia].
  - simpl in Hrun.
    destruct g as [|c g].
    + simpl in *. assert (lo = 0) as -> by lia.
      by destruct (one p s' _).
    + simpl in Hrun. apply Forall_cons in Hg as [Hc Hg]. rewrite Hc in Hrun.
      destruct (rep (one p) (pred lo) hi (g ++ s') k) eqn:E; [done|].
      eapply IH; [exact E|done|done|]. simpl in Hlen. lia.
Qed.

Lemma rep_one_some p hi : ∀ lo s k r,
  lo ≤ hi →
  rep (one p) lo hi s k = Some r →
  ∃ g s', s = g ++ s'
          ∧ Forall (λ c, p c = true) g
          ∧ lo ≤ length g ≤ hi
          ∧ k s' = Some r
          ∧ ∀ g' s'', s = g' ++ s'' → Forall (λ c, p c = true) g' →
                      length g < length g' ≤ hi → k s'' = None.
Proof.
  induction hi as [|hi IH]; intros lo s k r Hlo Hrun.
  - simpl in Hrun. exists [], s. split; [done|]. split; [done|].
    split; [simpl; lia|]. split; [done|]. intros g' s'' _ _ Hlen. lia.
  - simpl in Hrun.
    destruct (one p s (λ s', rep (one p) (pred lo) hi s' k)) as [r0|] eqn:E.
    + injection Hrun as ->. unfold one in E.
      destruct s as [|c s]; [done|]. destruct (p c) eqn:Hc; [|done].
      apply IH in E as (g & s' & -> & Hg & Hlen & Hk & Hgreedy); [|lia].
      exists (c :: g), s'. split; [done|]. split; [by constructor|].
      split; [simpl; lia|]. split; [done|].
      intros g' s'' Heq Hg' Hlen'. destruct g' as [|c' g']; [simpl in *; lia|].
      injection Heq as <- Heq. apply Forall_cons in Hg' as [_ Hg'].
      eapply Hgreedy; [done|done|]. simpl in Hlen'. lia.
    + destruct (Nat.eqb_spec lo 0) as [->|]; [|done].
      exists [], s. split; [done|]. split; [done|]. split; [simpl; lia|].
      split; [done|]. intros g' s'' -> Hg' Hlen'.
      destruct g' as [|c g']; [simpl in *; lia|].
      unfold one in E. simpl in E. apply Forall_cons in Hg' as [Hc Hg'].
      rewrite Hc in E.
      eapply rep_one_none; [exact E|done|done|]. simpl in *. lia.
Qed.

Lemma rep_step_some m lo hi s k r :
  rep m (S lo) (S hi) s k = Some r → m s (λ s', rep m lo hi s' k) = Some r.
Proof. simpl. by destruct (m s _). Qed.

Lemma rep_step_none m lo hi s k :
  rep m (S lo) (S hi) s k = None → m s (λ s', rep m lo hi s' k) = None.
Proof. simpl. by destruct (m s _). Qed.

Lemma digits_some s k r :
  run digits_1_3 s k = Some r →
  ∃ g s', s = g ++ s' ∧ is_group g ∧ k s' = Some r
          ∧ ∀ g' s'', s = g' ++ s'' → is_group g' → length g < length g' →
                      k s'' = None.
Proof.
  intros Hrun. apply rep_one_some in Hrun as (g & s' & -> & Hg & Hlen & Hk & Hgr); [|lia].
  exists g, s'. split; [done|]. split; [done|]. split; [done|].
  intros g' s'' Heq [Hlen' Hg'] Hlt. eapply Hgr; [done|done|lia].
Qed.

Lemma digits_none s k :
  run digits_1_3 s k = None →
  ∀ g s', s = g ++ s' → is_group g → k s' = None.
Proof.
  intros Hrun g s' Heq [Hlen Hg].
  exact (rep_one_none (in_range "0" "9") 3 1 s k Hrun g s' Heq Hg Hlen).
Qed.

Lemma dot_digits_some s k r :
  run dot_digits s k = Some r →
  ∃ g s', s = "."%char :: g ++ s' ∧ is_group g ∧ k s' = Some r
          ∧ ∀ g' s'', g ++ s' = g' ++ s'' → is_group g' → length g < length g' →
                      k s'' = None.
Proof.
  intros Hrun. change (run dot_digits s k)
    with (one (Ascii.eqb ".") s (λ s', run digits_1_3 s' k)) in Hrun.
  destruct s as [|c s]; [done|]. cbv [one] in Hrun.
  destruct (Ascii.eqb_spec "." c) as [<-|]; [|done].
  apply digits_some in Hrun as (g & s' & -> & Hg & Hk & Hgr).
  by exists g, s'.
Qed.

Lemma dot_digits_none s k :
  run dot_digits s k = None →
  ∀ g s', s = "."%char :: g ++ s' → is_group g → k s' = None.
Proof.
  intros Hrun g s' -> Hg. change (run dot_digits ("."%char :: g ++ s') k)
    with (run digits_1_3 (g ++ s') k) in Hrun.
  by eapply digits_none.
Qed.

Lemma ipv4_unfold s k :
  run re_ipv4 s k = run digits_1_3 s (λ s1, rep (run dot_digits) 3 3 s1 k).
Proof. reflexivity. Qed.

(** A run of digits that ends at a dot is determined by the text. *)
Lemma digits_dot_inj (g g' x x' : list ascii) :
  Forall (λ c, is_digit c = true) g → Forall (λ c, is_digit c = true) g' →
  g ++ "."%char :: x = g' ++ "."%char :: x' → g = g' ∧ x = x'.
Proof.
  revert g'. induction g as [|c g IH]; intros g' Hg Hg' Heq.
  - destruct g' as [|c' g']; simpl in Heq; [by injection Heq|].
    injection Heq as <- _. apply Forall_cons in Hg' as [Hd _]. by vm_compute in Hd.
  - destruct g' as [|c' g']; simpl in Heq.
    + injection Heq as -> _. apply Forall_cons in Hg as [Hd _]. by vm_compute in Hd.
    + injection Heq as <- Heq. apply Forall_cons in Hg as [_ Hg].
      apply Forall_cons in Hg' as [_ Hg'].
      destruct (IH g' Hg Hg' Heq) as [-> ->]. done.
Qed.

Lemma ipv4_here_some s rest :
  run re_ipv4 s Some = Some rest →
  ∃ q, is_quad q ∧ s = q ++ rest
       ∧ ∀ q' rest', is_quad q' → s = q' ++ rest' → length q' ≤ length q.
Proof.
  rewrite ipv4_unfold. intros Hrun.
  apply digits_some in Hrun as (g1 & s1 & -> & Hg1 & Hrun & _).
  apply rep_step_some, dot_digits_some in Hrun as (g2 & s2 & -> & Hg2 & Hrun & _).
  apply rep_step_some, dot_digits_some in Hrun as (g3 & s3 & -> & Hg3 & Hrun & _).
  apply rep_step_some, dot_digits_some in Hrun as (g4 & s4 & -> & Hg4 & Hrun & Hgreedy).
  simpl in Hrun. injection Hrun as ->.
  exists (g1 ++ "."%char :: g2 ++ "."%char :: g3 ++ "."%char :: g4).
  split; [by exists g1, g2, g3, g4|].
  split; [by repeat (rewrite <- app_assoc; simpl)|].
  intros q' rest' (h1 & h2 & h3 & h4 & Hh1 & Hh2 & Hh3 & Hh4 & ->) Heq.
  repeat (rewrite <- app_assoc in Heq; simpl in Heq).
  apply digits_dot_inj in Heq as [-> Heq]; [|apply Hg1|apply Hh1].
  apply digits_dot_inj in Heq as [-> Heq]; [|apply Hg2|apply Hh2].
  apply digits_dot_inj in Heq as [-> Heq]; [|apply Hg3|apply Hh3].
  destruct (decide (length g4 < length h4)) as [Hlt|Hge].
  - by specialize (Hgreedy h4 rest' Heq Hh4 Hlt).
  - rewrite !length_app. simpl. rewrite !length_app. simpl.
    rewrite !length_app. simpl. lia.
Qed.

Lemma ipv4_here_none s :
  run re_ipv4 s Some = None →
  ∀ q rest, is_quad q → s ≠ q ++ rest.
Proof.
  rewrite ipv4_unfold.
  intros Hrun q rest (g1 & g2 & g3 & g4 & Hg1 & Hg2 & Hg3 & Hg4 & ->) Heq.
  repeat (rewrite <- app_assoc in Heq; simpl in Heq).
  eapply digits_none in Hrun; [|exact Heq|done].
  eapply rep_step_none, dot_digits_none in Hrun; [|done|done].
  eapply rep_step_none, dot_digits_none in Hrun; [|done|done].
  eapply rep_step_none, dot_digits_none in Hrun; [|done|done].
  done.
Qed.

Lemma marker_here s rest :
  run re_typ_srflx s Some = Some rest ↔ ∃ m, is_marker m ∧ s = m ++ rest.
Proof.
  split.
  - intros Hrun.
    do 3 (destruct s as [|? s]; [done|]; cbn [run re_typ_srflx Str one] in Hrun;
          match type of Hrun with
          | context [Ascii.eqb ?a ?b] => destruct (Ascii.eqb_spec a b) as [<-|]; [|done]
          end).
    destruct s as [|c s]; [done|]. cbn [run one] in Hrun.
    destruct (is_space c) eqn:Hc; [|done].
    do 5 (destruct s as [|? s]; [done|]; cbn [run Str one] in Hrun;
          match type of Hrun with
          | context [Ascii.eqb ?a ?b] => destruct (Ascii.eqb_spec a b) as [<-|]; [|done]
          end).
    injection Hrun as ->.
    exists (chars "typ" ++ c :: chars "srflx"). split; [by exists c|done].
  - intros (m & (c & Hc & ->) & ->). simpl. by rewrite Hc.
Qed.

Lemma search_some r : ∀ s i j m,
  search r s i = Some (j, m) →
  ∃ pre tail rest,
    s = pre ++ tail ∧ j = i + length pre
    ∧ run r tail Some = Some rest
    ∧ m = take (length tail - length rest) tail
    ∧ ∀ pre' tail', s = pre' ++ tail' → length pre' < length pre →
                    run r tail' Some = None.
Proof.
  induction s as [|c s IH]; intros i j m Hs; simpl in Hs.
  - destruct (run r [] Some) as [rest|] eqn:E; [|done]. injection Hs as <- <-.
    exists [], [], rest. split; [done|]. split; [simpl; lia|]. split; [done|].
    split; [done|]. intros pre' tail' _ Hlt. simpl in Hlt. lia.
  - destruct (run r (c :: s) Some) as [rest|] eqn:E.
    + injection Hs as <- <-. exists [], (c :: s), rest.
      split; [done|]. split; [simpl; lia|]. split; [done|]. split; [done|].
      intros pre' tail' _ Hlt. simpl in Hlt. lia.
    + apply IH in Hs as (pre & tail & rest & -> & -> & Hrun & -> & Hfirst).
      exists (c :: pre), tail, rest. split; [done|]. split; [simpl; lia|].
      split; [done|]. split; [done|].
      intros pre' tail' Heq Hlt. destruct pre' as [|c' pre'].
      * simpl in Heq. by subst tail'.
      * injection Heq as <- Heq. apply (Hfirst pre' tail' Heq). simpl in Hlt. lia.
Qed.

Lemma search_none r : ∀ s i,
  search r s i = None →
  ∀ pre tail, s = pre ++ tail → run r tail Some = None.
Proof.
  induction s as [|c s IH]; intros i Hs pre tail Heq; simpl in Hs.
  - destruct (run r [] Some) eqn:E; [done|].
    symmetry in Heq. apply app_eq_nil in Heq as [_ ->]. done.
  - destruct (run r (c :: s) Some) eqn:E; [done|].
    destruct pre as [|c' pre]; simpl in Heq; [by subst tail|].
    injection Heq as <- Heq. by eapply IH.
Qed.

Lemma length_chars s : length (chars s) = String.length s.
Proof. induction s as [|c s IH]; simpl; [done|]. by rewrite IH. Qed.

Lemma chars_inj a b : chars a = chars b → a = b.
Proof.
  intros H. rewrite <- (string_of_list_ascii_of_string a),
    <- (string_of_list_ascii_of_string b). unfold chars in H. by rewrite H.
Qed.

Lemma chars_of_list l : chars (string_of_list_ascii l) = l.
Proof. apply list_ascii_of_string_of_list_ascii. Qed.

Lemma take_matched {A} (q rest : list A) :
  take (length (q ++ rest) - length rest) (q ++ rest) = q.
Proof.
  rewrite length_app. replace (length q + length rest - length rest) with (length q) by lia.
  by rewrite take_app_length.
Qed.

Lemma match_typ_some s :
  is_Some (str_match s re_typ_srflx) ↔ has_marker s.
Proof.
  unfold str_match, has_marker. fold (chars s). split.
  - intros [[j m] Hm]. destruct (search re_typ_srflx (chars s) 0) as [[j' m']|] eqn:E; [|done].
    apply search_some in E as (pre & tail & rest & Heq & _ & Hrun & _ & _).
    apply marker_here in Hrun as (mk & Hmk & ->).
    exists (length pre), mk. split; [done|]. by exists pre, rest.
  - intros (i & mk & Hmk & pre & post & Heq & _).
    destruct (search re_typ_srflx (chars s) 0) as [[j' m']|] eqn:E; [by eexists|].
    eapply search_none in E; [|exact Heq].
    assert (Hrun : run re_typ_srflx (mk ++ post) Some = Some post).
    { apply marker_here. by exists mk. }
    congruence.
Qed.

Lemma match_ipv4_some s j a :
  str_match s re_ipv4 = Some (j, a) → first_quad s a.
Proof.
  unfold str_match. fold (chars s). intros Hm.
  destruct (search re_ipv4 (chars s) 0) as [[j' m]|] eqn:E; [|done].
  injection Hm as -> <-.
  apply search_some in E as (pre & tail & rest & Heq & _ & Hrun & -> & Hfirst).
  apply ipv4_here_some in Hrun as (q & Hq & -> & Hmax).
  rewrite take_matched. exists (length pre). split.
  - split; rewrite chars_of_list; [done|]. by exists pre, rest.
  - intros i q' [Hq' (pre' & post' & Heq' & <-)].
    destruct (decide (length pre < length pre')) as [|Hge]; [by left|]. right.
    destruct (decide (length pre' < length pre)) as [Hlt|Hge'].
    + exfalso. specialize (Hfirst pre' (chars q' ++ post') Heq' Hlt).
      by eapply ipv4_here_none.
    + assert (Hlen : length pre = length pre') by lia. split; [done|].
      rewrite Heq in Heq'. apply app_inj_1 in Heq' as [_ Heq']; [|done].
      rewrite <- !length_chars, chars_of_list. by eapply Hmax.
Qed.

Lemma match_ipv4_none s :
  str_match s re_ipv4 = None → ∀ i q, ¬ quad_at s i q.
Proof.
  unfold str_match. fold (chars s). intros Hm i q [Hq (pre & post & Heq & _)].
  destruct (search re_ipv4 (chars s) 0) as [[j' m]|] eqn:E; [done|].
  eapply search_none in E; [|exact Heq].
  by eapply ipv4_here_none.
Qed.

Lemma first_quad_unique s a b : first_quad s a → first_quad s b → a = b.
Proof.
  intros (i & [Ha (pa & ta & Heqa & Hia)] & Hmina) (j & [Hb (pb & tb & Heqb & Hjb)] & Hminb).
  destruct (Hmina j b) as [Hlt|[-> Hlen1]]; [by split; [|exists pb, tb]| |].
  { destruct (Hminb i a) as [?|[? _]]; [by split; [|exists pa, ta]|lia..]. }
  destruct (Hminb j a) as [?|[_ Hlen2]]; [by split; [|exists pa, ta]|lia|].
  rewrite Heqa in Heqb. apply app_inj_1 in Heqb as [_ Heqb]; [|lia].
  apply chars_inj. apply app_inj_1 in Heqb as [? _]; [done|].
  rewrite !length_chars. lia.
Qed.

Lemma classify_some record a :
  classify record = Some a →
  has_marker (default "" record) ∧ first_quad (default "" record) a.
Proof.
  unfold classify.
  destruct (str_match (default "" record) re_typ_srflx) as [tm|] eqn:Ht; [|done].
  destruct (str_match (default "" record) re_ipv4) as [[j m]|] eqn:Hi; [|done].
  intros [= <-]. split.
  - apply match_typ_some. by rewrite Ht.
  - by eapply match_ipv4_some.
Qed.

Lemma classify_none record :
  classify record = None →
  ¬ has_marker (default "" record) ∨ ∀ i q, ¬ quad_at (default "" record) i q.
Proof.
  unfold classify.
  destruct (str_match (default "" record) re_typ_srflx) as [tm|] eqn:Ht.
  - destruct (str_match (default "" record) re_ipv4) as [[j m]|] eqn:Hi; [done|].
    intros _. right. by apply match_ipv4_none.
  - intros _. left. intros Hm%match_typ_some. rewrite Ht in Hm. by destruct Hm.
Qed.

Lemma classify_iff record :
  (∀ a, classify record = Some a
        ↔ has_marker (default "" record) ∧ first_quad (default "" record) a)
  ∧ (classify record = None
     ↔ ¬ has_marker (default "" record) ∨ ∀ i q, ¬ quad_at (default "" record) i q).
Proof.
  split.
  - intros a. split; [apply classify_some|]. intros [Hm Hq].
    destruct (classify record) as [b|] eqn:Hc.
    + apply classify_some in Hc as [_ Hb]. f_equal. by eapply first_quad_unique.
    + apply classify_none in Hc as [Hc|Hc]; [done|].
      destruct Hq as (i & Hq & _). by destruct (Hc i a).
  - split; [apply classify_none|]. intros Hno.
    destruct (classify record) as [b|] eqn:Hc; [|done].
    apply classify_some in Hc as [Hm (i & Hq & _)].
    destruct Hno as [Hno|Hno]; [done|]. by destruct (Hno i b).
Qed.

Lemma detect_object_returns env record w :
  returns (detect env (IceObject record) w).1.
Proof.
  unfold detect, bind, lift, ret. simpl.
  destruct (classify record) as [a|]; [|by eexists].
  destruct (decide (novel a w)) as [Hn|Hn].
  - rewrite (admit_novel _ _ Hn). destruct (getGeolocation_start env a); by eexists.
  - rewrite (admit_stale _ _ Hn). by eexists.
Qed.

(** C7. [classify] is a total function of the record. It gives an address
    exactly when the record holds the marker (typ, a white-space character,
    srflx) and a dotted quad (four groups of one to three digits separated
    by dots); the address is then the first dotted quad of the record, the
    leftmost one and the longest that starts there. It gives nothing
    exactly when the marker or every dotted quad is missing, as for an
    absent record. The detection on an object never throws. *)
Theorem classify_actionable (record : option string) :
  (∀ a, classify record = Some a
        ↔ has_marker (default "" record) ∧ first_quad (default "" record) a)
  ∧ (is_Some (classify record)
     ↔ has_marker (default "" record) ∧ ∃ i q, quad_at (default "" record) i q)
  ∧ (classify record = None
     ↔ ¬ has_marker (default "" record) ∨ ∀ i q, ¬ quad_at (default "" record) i q)
  ∧ classify (Some "candidate:842163049 1 udp 1677729535 203.0.113.7 46154 typ srflx raddr 10.0.0.2 rport 3")
    = Some "203.0.113.7"
  ∧ classify (Some "a=candidate typ srflx via 203.0.113.7 end") = Some "203.0.113.7"
  ∧ classify (Some "candidate:1 1 udp 2122260223 192.168.1.5 46154 typ host") = None
  ∧ classify (Some "candidate:1 1 udp 1677729535 2001:db8::7 46154 typ srflx") = None
  ∧ classify None = None
  ∧ (∀ env w, returns (detect env (IceObject record) w).1).
Proof.
  destruct (classify_iff record) as [Hsome Hnone].
  split; [exact Hsome|]. split; [|split; [exact Hnone|]].
  - split.
    + intros [a Ha]. apply Hsome in Ha as [Hm (i & Hq & _)]. eauto.
    + intros [Hm (i & q & Hq)]. destruct (classify record) as [a|] eqn:Hc; [by eexists|].
      destruct (classify_none _ Hc) as [Hc'|Hc']; [done|]. by destruct (Hc' i q).
  - repeat split; try (vm_compute; reflexivity).
    intros env w. apply detect_object_returns.
Qed.

Lemma chars_app a b : chars (a +:+ b) = chars a ++ chars b.
Proof. induction a as [|c a IH]; simpl; [done|]. by rewrite <- IH. Qed.

Lemma search_here r s i rest :
  run r s Some = Some rest →
  search r s i = Some (i, take (length s - length rest) s).
Proof. intros H. destruct s; simpl; by rewrite H. Qed.

Lemma search_skip r c s i :
  run r (c :: s) Some = None → search r (c :: s) i = search r s (S i).
Proof. intros H. simpl. by rewrite H. Qed.

Lemma ipv4_here_nondigit c s :
  is_digit c = false → run re_ipv4 (c :: s) Some = None.
Proof.
  intros Hc. rewrite ipv4_unfold. unfold digits_1_3. cbn [run rep one].
  unfold is_digit in Hc. by rewrite Hc.
Qed.

Lemma ipv4_here_exact q :
  is_quad q → run re_ipv4 q Some = Some [].
Proof.
  intros Hq. destruct (run re_ipv4 q Some) as [rest|] eqn:E.
  - apply ipv4_here_some in E as (q0 & _ & Heq & Hmax).
    specialize (Hmax q [] Hq). rewrite app_nil_r in Hmax. specialize (Hmax eq_refl).
    apply (f_equal length) in Heq. rewrite length_app in Heq.
    destruct rest; [done|]. simpl in Heq. lia.
  - eapply ipv4_here_none in E; [|exact Hq]. destruct E. by rewrite app_nil_r.
Qed.

Lemma classify_marker_then_quad (q : string) :
  is_quad (chars q) → classify (Some ("typ srflx " +:+ q)) = Some q.
Proof.
  intros Hq. unfold classify, str_match. cbn [default from_option id].
  fold (chars ("typ srflx " +:+ q)).
  rewrite chars_app.
  assert (Ht : run re_typ_srflx (chars "typ srflx " ++ chars q) Some
               = Some (" "%char :: chars q)).
  { apply marker_here. exists (chars "typ srflx"). split; [|done].
    by exists " "%char. }
  rewrite (search_here _ _ _ _ Ht).
  change (chars "typ srflx " ++ chars q)
    with ("t" :: "y" :: "p" :: " " :: "s" :: "r" :: "f" :: "l" :: "x" :: " " :: chars q)%char.
  do 10 (rewrite search_skip by (by apply ipv4_here_nondigit)).
  pose proof (ipv4_here_exact _ Hq) as Hi.
  rewrite (search_here _ _ _ _ Hi). simpl length. rewrite Nat.sub_0_r, take_ge by done.
  unfold chars. by rewrite string_of_list_ascii_of_string.
Qed.

(** C10. The pattern has no range check on the groups: the record
    "typ srflx 999.999.999.999" is classified as actionable with the
    address 999.999.999.999, and so is the marker followed by any four
    groups of one to three digits separated by dots. *)
Theorem no_octet_range_check :
  classify (Some "typ srflx 999.999.999.999") = Some "999.999.999.999"
  ∧ ∀ g1 g2 g3 g4 : string,
      is_group (chars g1) → is_group (chars g2) →
      is_group (chars g3) → is_group (chars g4) →
      classify (Some ("typ srflx " +:+ g1 +:+ "." +:+ g2 +:+ "." +:+ g3 +:+ "." +:+ g4))
      = Some (g1 +:+ "." +:+ g2 +:+ "." +:+ g3 +:+ "." +:+ g4).
Proof.
  split; [vm_compute; reflexivity|].
  intros g1 g2 g3 g4 H1 H2 H3 H4. apply classify_marker_then_quad.
  exists (chars g1), (chars g2), (chars g3), (chars g4).
  split; [done|]. split; [done|]. split; [done|]. split; [done|].
  by rewrite !chars_app.
Qed.

Lemma no_octet_range_check_witness :
  is_group (chars "300") ∧ is_group (chars "7") ∧ is_group (chars "99") ∧ is_group (chars "256")
  ∧ classify (Some "typ srflx 300.7.99.256") = Some "300.7.99.256".
Proof.
  assert (H1 : is_group (chars "300")).
  { split; [simpl; lia|]. repeat constructor. }
  assert (H2 : is_group (chars "7")).
  { split; [simpl; lia|]. repeat constructor. }
  assert (H3 : is_group (chars "99")).
  { split; [simpl; lia|]. repeat constructor. }
  assert (H4 : is_group (chars "256")).
  { split; [simpl; lia|]. repeat constructor. }
  split; [exact H1|]. split; [exact H2|]. split; [exact H3|]. split; [exact H4|].
  destruct no_octet_range_check as [_ H].
  exact (H "300" "7" "99" "256" H1 H2 H3 H4).
Defined.


(** ** More on the GeolocationService *)

(** X1. When a lookup succeeds. [getGeolocation] resolves with data exactly
    when the address is not empty, [GM_xmlhttpRequest] exists, the reply is
    an [onload] whose text parses to a value other than [null], whose
    [error] field does not count as true and whose country, if it has one,
    is a code [Intl.DisplayNames] accepts; the data are then the
    normalised fields of the response and the world is the one
    [updateHistory] leaves. In every other case it resolves with [null]
    and the world is as it was; it never throws. *)
Theorem lookup_outcome env now a reply w :
  (∀ d w',
     getGeolocation env now a reply w = (Ok (Some d), w')
     ↔ a ≠ "" ∧ has_GM_xmlhttpRequest env = true
       ∧ ∃ json c,
           reply = OnLoad (Ok json)
           ∧ json ≠ JNull ∧ json ≠ JUndefined
           ∧ truthy (member json "error") = false
           ∧ country_name env json = Ok c
           ∧ d = normalised json c
           ∧ w' = (updateHistory env now a d w).2)
  ∧ (getGeolocation env now a reply w = (Ok None, w)
     ∨ ∃ d, getGeolocation env now a reply w
            = (Ok (Some d), (updateHistory env now a d w).2)).
Proof.
  rewrite getGeolocation_run.
  destruct (String.eqb_spec a "") as [->|Ha].
  { split; [|by left]. intros d w'. split; [done|]. by intros [? _]. }
  destruct (has_GM_xmlhttpRequest env) eqn:Hx; simpl.
  2:{ split; [|by left]. intros d w'. split; [done|]. by intros (_ & ? & _). }
  destruct reply as [parsed|].
  2:{ split; [|by left]. intros d w'. split; [done|].
      by intros (_ & _ & json & c & ? & _). }
  rewrite onload_run. destruct parsed as [json|e].
  2:{ split; [|by left]. intros d w'. split; [done|].
      by intros (_ & _ & json & c & ? & _). }
  rewrite build_data_run.
  assert (Hinj : ∀ j, OnLoad (Ok json) = OnLoad (Ok j) → j = json) by (by intros j [= ->]).
  destruct json as [| |b|n|s|items|fields];
    try (split; [|by left]; intros d w'; split; [done|];
         intros (_ & _ & j & c & ->%Hinj & ? & ? & _); done).
  all: destruct (truthy (member _ "error")) eqn:Herr;
    [ split; [|by left]; intros d w'; split; [done|];
      intros (_ & _ & j & c & ->%Hinj & _ & _ & Hf & _); congruence | ].
  all: destruct (country_name env _) as [c|e] eqn:Hc;
    [ | split; [|by left]; intros d w'; split; [done|];
        intros (_ & _ & j & c & ->%Hinj & _ & _ & _ & Hc' & _); congruence ].
  all: split; [|right; by eexists].
  all: intros d w'; split;
    [ intros [= <- <-]; split; [done|]; split; [done|];
      eexists _, c; repeat split; done
    | intros (_ & _ & j & c' & ->%Hinj & _ & _ & _ & Hc' & -> & ->);
      rewrite Hc in Hc'; by injection Hc' as -> ].
Qed.

(** X2. The data built from a response never show an empty field: the
    address, region, city, location, provider and host name each count as
    true (a missing or empty piece is "N/A"), and the VPN field is one of
    its two texts. *)
Theorem data_never_empty env json d :
  build_data env json = Ok (Some d) →
  truthy (IP_Address d) = true ∧ truthy (Region d) = true
  ∧ truthy (City d) = true ∧ truthy (Location d) = true
  ∧ truthy (ISP d) = true ∧ truthy (Hostname d) = true
  ∧ (VPN_Proxy d = JStr "Yes (Bogon)" ∨ VPN_Proxy d = JStr "No")
  ∧ (truthy (member json "country") = false → Country d = JStr "N/A").
Proof.
  rewrite build_data_run. intros Hb.
  assert (Hor : ∀ v, truthy (or_else v (JStr "N/A")) = true).
  { intros v. unfold or_else. by destruct (truthy v) eqn:Hv. }
  assert (Hd : ∃ c, country_name env json = Ok c ∧ d = normalised json c).
  { destruct json; try done;
      (destruct (truthy (member _ "error")); [done|]);
      (destruct (country_name env _) as [c|e]; [|done]);
      injection Hb as <-; by exists c. }
  destruct Hd as (c & Hc & ->). simpl.
  repeat (split; [apply Hor|]). split.
  - destruct (truthy (member json "bogon")); [by left|by right].
  - intros Hno. unfold country_name in Hc. rewrite Hno in Hc. by injection Hc as <-.
Qed.

Lemma data_never_empty_witness :
  build_data host (JObj [("ip", JStr "203.0.113.7"); ("city", JStr ""); ("bogon", JBool true)])
  = Ok (Some {| IP_Address := JStr "203.0.113.7"; Country := JStr "N/A";
                Region := JStr "N/A"; City := JStr "N/A"; Location := JStr "N/A";
                ISP := JStr "N/A"; Hostname := JStr "N/A";
                VPN_Proxy := JStr "Yes (Bogon)" |})
  ∧ truthy (City {| IP_Address := JStr "203.0.113.7"; Country := JStr "N/A";
                    Region := JStr "N/A"; City := JStr "N/A"; Location := JStr "N/A";
                    ISP := JStr "N/A"; Hostname := JStr "N/A";
                    VPN_Proxy := JStr "Yes (Bogon)" |}) = true.
Proof.
  assert (H : build_data host
                (JObj [("ip", JStr "203.0.113.7"); ("city", JStr ""); ("bogon", JBool true)])
              = Ok (Some {| IP_Address := JStr "203.0.113.7"; Country := JStr "N/A";
                            Region := JStr "N/A"; City := JStr "N/A";
                            Location := JStr "N/A"; ISP := JStr "N/A";
                            Hostname := JStr "N/A"; VPN_Proxy := JStr "Yes (Bogon)" |}))
    by reflexivity.
  split; [exact H|].
  exact (proj1 (proj2 (proj2 (data_never_empty host _ _ H)))).
Defined.



(** ** What every event keeps *)

Lemma handle_effect env e w :
  (∃ d, (handle env e w).2 = set_detectedIps d w)
  ∨ (∃ now a dd, (handle env e w).2 = (updateHistory env now a dd w).2).
Proof.
  assert (Hid : w = set_detectedIps (detectedIps w) w) by by destruct w.
  destruct e as [ice|a parsed now|a]; simpl; unfold try_catch, bind, ret.
  - left. destruct (detect_world env ice w) as [d Hd].
    destruct (detect env ice w) as [[r|ex] w']; simpl in Hd; subst w'; by eexists.
  - destruct (onload_cases env now a parsed w) as [->|(json & d & _ & _ & ->)].
    + left. by eexists.
    + right. by eexists _, _, _.
  - left. by eexists.
Qed.

(** A property that holds initially, survives a change of the session set
    and holds after every [updateHistory] holds after any events. *)
Lemma handle_all_keeps (P : World → Prop) env :
  (∀ d w, P w → P (set_detectedIps d w)) →
  (∀ now a dd w, P w → P (updateHistory env now a dd w).2) →
  ∀ es w, P w → P (handle_all env es w).2.
Proof.
  intros Hset Hup. induction es as [|e es IH]; intros w Hw; [done|].
  simpl. unfold bind. pose proof (handle_returns env e w) as He.
  assert (Hw' : P (handle env e w).2).
  { destruct (handle_effect env e w) as [[d ->]|(now & a & dd & ->)]; auto. }
  destruct (handle env e w) as [r w']. simpl in *. subst r. by apply IH.
Qed.

Lemma updateHistory_synced env now a d w : synced (updateHistory env now a d w).2.
Proof.
  unfold synced. rewrite updateHistory_run. simpl. by rewrite ledger_after_head.
Qed.

Lemma handle_all_synced env es w : synced w → synced (handle_all env es w).2.
Proof.
  apply handle_all_keeps; [by intros d w'|]. intros. apply updateHistory_synced.
Qed.

(** X4. The last reported address is always the address of the first
    ledger entry: this holds after every [updateHistory] whatever the
    state before, and, once it holds, after any events. *)
Theorem last_reported_is_first env :
  (∀ now a d w, synced (updateHistory env now a d w).2)
  ∧ (∀ es w, synced w → synced (handle_all env es w).2)
  ∧ (∀ w0, main env ∅ = Ok w0 → ∀ es, synced (handle_all env es w0).2).
Proof.
  split; [apply updateHistory_synced|]. split; [apply handle_all_synced|].
  intros w0. rewrite main_run. intros [= <-] es. apply handle_all_synced.
  unfold synced. simpl. rewrite lookup_empty. simpl.
  by destruct (GM_getValue_fn (backend env)).
Qed.

Lemma last_reported_is_first_witness :
  synced blank
  ∧ synced (handle_all host
              [EvLoad "203.0.113.7" (Ok (JObj [("ip", JStr "203.0.113.7")])) "t1";
               EvLoad "198.51.100.9" (Ok (JObj [])) "t2"] blank).2.
Proof.
  assert (H : synced blank) by reflexivity.
  split; [exact H|].
  exact (proj1 (proj2 (last_reported_is_first host)) _ blank H).
Defined.

(** X5. The events write two keys of the storage and no other: whatever
    is stored under another key, the panel state for one, stays as it is. *)
Theorem other_keys_untouched env es w k :
  k ≠ STORAGE_KEY_IP →
  k ≠ STORAGE_KEY_HISTORY →
  storage (handle_all env es w).2 !! k = storage w !! k.
Proof.
  intros Hip Hh.
  apply (handle_all_keeps (λ w', storage w' !! k = storage w !! k)); [done| |done].
  intros now a dd w' Hw'. rewrite updateHistory_run. simpl. unfold stored_after.
  destruct (GM_setValue_fn (backend env)); [done..|].
  by rewrite !lookup_insert_ne.
Qed.

Lemma other_keys_untouched_witness :
  STORAGE_KEY_STATE ≠ STORAGE_KEY_IP
  ∧ STORAGE_KEY_STATE ≠ STORAGE_KEY_HISTORY
  ∧ storage (handle_all host
               [EvLoad "203.0.113.7" (Ok (JObj [])) "t1"]
               (set_storage {[STORAGE_KEY_STATE := StPanel 40 10 true false]} blank)).2
      !! STORAGE_KEY_STATE
    = Some (StPanel 40 10 true false).
Proof.
  assert (H1 : STORAGE_KEY_STATE ≠ STORAGE_KEY_IP) by discriminate.
  assert (H2 : STORAGE_KEY_STATE ≠ STORAGE_KEY_HISTORY) by discriminate.
  split; [exact H1|]. split; [exact H2|].
  rewrite (other_keys_untouched host _ _ _ H1 H2). reflexivity.
Defined.

(** X6. With working storage functions a page load restores exactly what
    the page before it had: at any point of a session, building the
    service anew from the storage gives the same ledger, the same last
    reported address and the same storage; only the session set is lost. *)
Theorem reload_restores env store w0 es :
  GM_getValue_fn (backend env) = GM_works →
  GM_setValue_fn (backend env) = GM_works →
  main env store = Ok w0 →
  main env (storage (handle_all env es w0).2)
  = Ok (set_detectedIps ∅ (handle_all env es w0).2).
Proof.
  intros Hget Hset Hmain.
  apply (handle_all_keeps (λ w, main env (storage w) = Ok (set_detectedIps ∅ w))).
  - by intros d w.
  - intros now a dd w _. rewrite updateHistory_run, main_run, Hget. simpl.
    unfold stored_after. rewrite Hset. unfold set_detectedIps. simpl.
    rewrite lookup_insert_eq.
    rewrite lookup_insert_ne by done. rewrite lookup_insert_eq. done.
  - revert Hmain. rewrite !main_run. intros [= <-]. simpl. by rewrite Hget.
Qed.

Lemma reload_restores_witness :
  GM_getValue_fn (backend host) = GM_works
  ∧ GM_setValue_fn (backend host) = GM_works
  ∧ main host ∅ = Ok blank
  ∧ main host (storage (handle_all host
                          [EvLoad "203.0.113.7" (Ok (JObj [])) "t1";
                           EvLoad "198.51.100.9" (Ok (JObj [])) "t2"] blank).2)
    = Ok (set_detectedIps ∅
            (handle_all host
               [EvLoad "203.0.113.7" (Ok (JObj [])) "t1";
                EvLoad "198.51.100.9" (Ok (JObj [])) "t2"] blank).2).
Proof.
  assert (H1 : GM_getValue_fn (backend host) = GM_works) by reflexivity.
  assert (H2 : GM_setValue_fn (backend host) = GM_works) by reflexivity.
  assert (H3 : main host ∅ = Ok blank) by reflexivity.
  split; [exact H1|]. split; [exact H2|]. split; [exact H3|].
  exact (reload_restores host ∅ blank _ H1 H2 H3).
Defined.

(** X7. Without a working [GM_setValue] nothing is ever persisted: the
    storage stays as it was under any events, while the ledger in memory
    is kept as usual. Without a working [GM_getValue] every page load
    starts with an empty ledger and no last reported address, whatever
    the storage holds. *)
Theorem without_storage env :
  (GM_setValue_fn (backend env) ≠ GM_works →
   ∀ es w, storage (handle_all env es w).2 = storage w)
  ∧ (GM_setValue_fn (backend env) ≠ GM_works →
     ∀ now a d w, ip <$> head (ipHistory (updateHistory env now a d w).2) = Some a)
  ∧ (GM_getValue_fn (backend env) ≠ GM_works →
     ∀ store, main env store
              = Ok {| storage := store; ipHistory := [];
                      lastReportedIP := None; detectedIps := ∅ |}).
Proof.
  split; [|split].
  - intros Hset es w.
    apply (handle_all_keeps (λ w', storage w' = storage w)); [done| |done].
    intros now a dd w' Hw'. rewrite updateHistory_run. simpl. unfold stored_after.
    by destruct (GM_setValue_fn (backend env)).
  - intros _ now a d w. rewrite updateHistory_run. simpl. apply ledger_after_head.
  - intros Hget store. rewrite main_run.
    by destruct (GM_getValue_fn (backend env)).
Qed.

Lemma without_storage_witness :
  GM_setValue_fn raising ≠ GM_works
  ∧ GM_getValue_fn raising ≠ GM_works
  ∧ storage (handle_all {| backend := raising; has_GM_xmlhttpRequest := true;
                           regionNames_of := regionNames_of host |}
               [EvLoad "203.0.113.7" (Ok (JObj [])) "t1"] blank).2 = ∅
  ∧ main {| backend := raising; has_GM_xmlhttpRequest := true;
            regionNames_of := regionNames_of host |}
      {[STORAGE_KEY_IP := StAddress "203.0.113.7"]}
    = Ok {| storage := {[STORAGE_KEY_IP := StAddress "203.0.113.7"]};
            ipHistory := []; lastReportedIP := None; detectedIps := ∅ |}.
Proof.
  assert (H1 : GM_setValue_fn raising ≠ GM_works) by discriminate.
  assert (H2 : GM_getValue_fn raising ≠ GM_works) by discriminate.
  split; [exact H1|]. split; [exact H2|].
  destruct (without_storage {| backend := raising; has_GM_xmlhttpRequest := true;
                               regionNames_of := regionNames_of host |})
    as (Hs & _ & Hm).
  split; [exact (Hs H1 _ blank) | exact (Hm H2 _)].
Defined.

(** ** More on the hook *)

Lemma quad_not_empty a : is_quad (chars a) → String.eqb a "" = false.
Proof.
  intros (g1 & g2 & g3 & g4 & [Hlen _] & _ & _ & _ & Heq).
  destruct a; [|done]. destruct g1; simpl in *; [lia|done].
Qed.

Lemma lookup_url_inj a b : lookup_url a = lookup_url b → a = b.
Proof.
  unfold lookup_url. intros H. apply (f_equal chars) in H.
  rewrite !chars_app in H. apply app_inv_head in H.
  rewrite !app_assoc in H. apply app_inv_tail in H. apply app_inv_tail in H.
  by apply chars_inj.
Qed.

Lemma detect_run env record w :
  detect env (IceObject record) w =
    match classify record with
    | None => (Ok None, w)
    | Some a =>
        if bool_decide (novel a w)
        then (Ok (if has_GM_xmlhttpRequest env then Some (lookup_url a) else None),
              set_detectedIps ({[a]} ∪ detectedIps w) w)
        else (Ok None, w)
    end.
Proof.
  unfold detect, bind, lift, ret. simpl.
  destruct (classify record) as [a|] eqn:Hc; [|done].
  apply classify_some in Hc as [_ (i & [Hq _] & _)].
  case_bool_decide as Hn.
  - rewrite (admit_novel _ _ Hn). unfold getGeolocation_start.
    rewrite (quad_not_empty _ Hq). by destruct (has_GM_xmlhttpRequest env).
  - by rewrite (admit_stale _ _ Hn).
Qed.

(** X8. What one call of the hook does, besides calling the original. An
    absent first argument makes the detection throw before it changes
    anything. A record that is not actionable changes nothing and asks for
    nothing. An actionable record yields a dotted quad of the record; if
    that address is the last reported one or was seen in this session,
    nothing happens; otherwise it joins the session set and, when
    [GM_xmlhttpRequest] exists, exactly the lookup of that address is
    requested. The ledger, the last reported address and the storage are
    never touched by the hook itself. *)
Theorem candidate_effect env record w :
  detect env IceNullish w = (Throw TypeError, w)
  ∧ (classify record = None → detect env (IceObject record) w = (Ok None, w))
  ∧ (∀ a, classify record = Some a →
          (∃ i, quad_at (default "" record) i a)
          ∧ (¬ novel a w → detect env (IceObject record) w = (Ok None, w))
          ∧ (novel a w →
             detect env (IceObject record) w
             = (Ok (if has_GM_xmlhttpRequest env then Some (lookup_url a) else None),
                set_detectedIps ({[a]} ∪ detectedIps w) w)))
  ∧ (∀ ice, ipHistory (detect env ice w).2 = ipHistory w
            ∧ lastReportedIP (detect env ice w).2 = lastReportedIP w
            ∧ storage (detect env ice w).2 = storage w
            ∧ detectedIps w ⊆ detectedIps (detect env ice w).2).
Proof.
  split; [reflexivity|]. split; [|split].
  - intros Hc. by rewrite detect_run, Hc.
  - intros a Hc. rewrite detect_run, Hc. split; [|split].
    + apply classify_some in Hc as [_ (i & Hq & _)]. by exists i.
    + intros Hn. by rewrite bool_decide_eq_false_2.
    + intros Hn. by rewrite bool_decide_eq_true_2.
  - intros ice. destruct (detect_world env ice w) as [d Hd]. rewrite Hd. simpl.
    split; [done|]. split; [done|]. split; [done|].
    intros b Hb. pose proof (detect_grows env ice b w Hb) as Hg. by rewrite Hd in Hg.
Qed.

Lemma candidate_effect_witness :
  classify (Some "candidate:1 1 udp 1685987071 203.0.113.7 54321 typ srflx")
  = Some "203.0.113.7"
  ∧ novel "203.0.113.7" blank
  ∧ detect host (IceObject (Some "candidate:1 1 udp 1685987071 203.0.113.7 54321 typ srflx"))
      blank
    = (Ok (Some (lookup_url "203.0.113.7")),
       set_detectedIps ({["203.0.113.7"]} ∪ ∅) blank).
Proof.
  assert (H1 : classify (Some "candidate:1 1 udp 1685987071 203.0.113.7 54321 typ srflx")
               = Some "203.0.113.7") by (vm_compute; reflexivity).
  assert (H2 : novel "203.0.113.7" blank).
  { split; [discriminate|]. simpl. apply not_elem_of_empty. }
  split; [exact H1|]. split; [exact H2|].
  destruct (candidate_effect host
              (Some "candidate:1 1 udp 1685987071 203.0.113.7 54321 typ srflx") blank)
    as (_ & _ & H & _).
  destruct (H _ H1) as (_ & _ & H3). exact (H3 H2).
Defined.

Lemma lookups_fresh env : ∀ es w url,
  url ∈ lookups env es w →
  ∃ a, url = lookup_url a ∧ is_quad (chars a) ∧ a ∉ detectedIps w.
Proof.
  induction es as [|e es IH]; intros w url Hin; [by apply elem_of_nil in Hin|].
  simpl in Hin. apply elem_of_app in Hin as [Hin|Hin].
  - destruct e as [[|record]|a parsed now|a]; try (by apply elem_of_nil in Hin).
    rewrite detect_run in Hin.
    destruct (classify record) as [a|] eqn:Hc; [|by apply elem_of_nil in Hin].
    apply classify_some in Hc as [_ (i & [Hq _] & _)].
    case_bool_decide as Hn; [|by apply elem_of_nil in Hin]. simpl in Hin.
    destruct (has_GM_xmlhttpRequest env); [|by apply elem_of_nil in Hin].
    apply list_elem_of_singleton in Hin as ->. destruct Hn as [Hl Hs].
    by exists a.
  - apply IH in Hin as (a & -> & Hq & Hs). exists a.
    split; [done|]. split; [done|]. intros Hin. by apply Hs, handle_grows.
Qed.

(** X9. No resolution storm: in one session, whatever candidates and
    replies arrive in whatever order, the hook requests no lookup twice. Every
    lookup requested is that of a dotted quad that was not in the session
    set when the events began. *)
Theorem one_lookup_per_address env es w :
  NoDup (lookups env es w)
  ∧ ∀ url, url ∈ lookups env es w →
           ∃ a, url = lookup_url a ∧ is_quad (chars a) ∧ a ∉ detectedIps w.
Proof.
  pose proof (lookups_fresh env) as Hfresh.
  split; [|by apply Hfresh].
  revert w. induction es as [|e es IH]; intros w; [constructor|].
  simpl. apply NoDup_app. split; [|split; [|by apply IH]].
  - destruct e as [[|record]|a parsed now|a]; try constructor.
    destruct (detect env (IceObject record) w).1 as [[url|]|]; try constructor.
    + apply not_elem_of_nil.
    + constructor.
  - intros url Hin Hin'.
    destruct e as [[|record]|a parsed now|a]; try (by apply elem_of_nil in Hin).
    rewrite detect_run in Hin.
    destruct (classify record) as [a|] eqn:Hc; [|by apply elem_of_nil in Hin].
    case_bool_decide as Hn; [|by apply elem_of_nil in Hin]. simpl in Hin.
    destruct (has_GM_xmlhttpRequest env); [|by apply elem_of_nil in Hin].
    apply list_elem_of_singleton in Hin as ->.
    apply Hfresh in Hin' as (b & Hb%lookup_url_inj & _ & Hout). subst b.
    apply Hout. simpl. unfold try_catch, bind, ret. rewrite detect_run, Hc.
    rewrite bool_decide_eq_true_2 by done. simpl.
    apply elem_of_union_l. by apply elem_of_singleton.
Qed.

(** ** The panel *)

Lemma append_assoc (a b c : string) : (a +:+ b) +:+ c = a +:+ b +:+ c.
Proof.
  induction a as [|ch a IH]; [done|].
  change (String ch ((a +:+ b) +:+ c) = String ch (a +:+ b +:+ c)). by rewrite IH.
Qed.

Lemma append_nil_r (a : string) : a +:+ "" = a.
Proof.
  induction a as [|ch a IH]; [done|].
  change (String ch (a +:+ "") = String ch a). by rewrite IH.
Qed.

Lemma foldl_append {A} (step : string → A → string) (f : A → string) :
  (∀ h x, step h x = h +:+ f x) →
  ∀ l acc, foldl step acc l = acc +:+ foldl step "" l.
Proof.
  intros Hstep. induction l as [|x l IH]; intros acc; simpl.
  - by rewrite append_nil_r.
  - rewrite IH, (IH (step "" x)), !Hstep, <- append_assoc. done.
Qed.

(** X10. [createTableHTML] writes one row for each entry, in the order of
    the entries, with the key and the text of the value put in as they
    are, nothing escaped: the table of [l1 ++ (k, v) :: l2] is the table
    of [l1] up to its closing tags, then the row of [k] and [v], then the
    table of [l2] from after its opening tags. *)
Theorem table_of_concatenation toText l1 k v l2 :
  ∃ before after,
    createTableHTML toText (l1 ++ (k, v) :: l2)
    = before +:+ "<tr><th>" +:+ k +:+ "</th><td>" +:+ toText v +:+ "</td></tr>" +:+ after
    ∧ createTableHTML toText l1 = before +:+ "</tbody></table>"
    ∧ createTableHTML toText l2 = "<table><tbody>" +:+ after.
Proof.
  unfold createTableHTML.
  set (step := λ (html : string) '(key, val),
         html +:+ "<tr><th>" +:+ key +:+ "</th><td>" +:+ toText val +:+ "</td></tr>").
  assert (Hstep : ∀ h x, step h x
            = h +:+ (let '(key, val) := x in
                     "<tr><th>" +:+ key +:+ "</th><td>" +:+ toText val +:+ "</td></tr>"))
    by (by intros h [key val]).
  pose proof (foldl_append step _ Hstep) as Hf.
  exists (foldl step "<table><tbody>" l1), (foldl step "" l2 +:+ "</tbody></table>").
  split; [|split; [done|]].
  - rewrite foldl_app. cbn [foldl]. rewrite Hf, Hstep, !append_assoc. done.
  - by rewrite Hf, append_assoc.
Qed.

Lemma on_view_run f p v :
  panel p = Some v → on_view f p = (Ok tt, set_panel (Some (f v)) p).
Proof. intros H. unfold on_view, the_panel, bind, get, ret, modify. by rewrite H. Qed.

Lemma showCurrentIP_synced toText w p v :
  synced w →
  panel p = Some v →
  showCurrentIP toText w p
  = (Ok [], set_panel (Some (set_innerHTML (waiting_or_current toText w)
                               (set_color "#98c379" v))) p).
Proof.
  intros Hs Hv. unfold showCurrentIP, waiting_or_current.
  unfold bind at 1. rewrite (on_view_run _ _ _ Hv).
  rewrite Hs. destruct (ipHistory w) as [|e rest]; simpl.
  - unfold bind. by rewrite (on_view_run _ _ (set_color "#98c379" v)).
  - destruct (String.eqb (ip e) "").
    + unfold bind. by rewrite (on_view_run _ _ (set_color "#98c379" v)).
    + rewrite decide_True by done. simpl.
      unfold bind. by rewrite (on_view_run _ _ (set_color "#98c379" v)).
Qed.

(** X11. The current view is served from the ledger. When the last
    reported address is the address of the first ledger entry, which
    [updateHistory] always leaves and every event keeps,
    [showCurrentIP] awaits no lookup: it sets the colour of the history
    button and shows the waiting text when there is no address, and else
    the address with the table of the data the ledger holds for it. The
    same is true after any further events. *)
Theorem current_view_needs_no_lookup env toText w p v :
  synced w →
  panel p = Some v →
  showCurrentIP toText w p
  = (Ok [], set_panel (Some (set_innerHTML (waiting_or_current toText w)
                               (set_color "#98c379" v))) p)
  ∧ ∀ es, (showCurrentIP toText (handle_all env es w).2 p).1 = Ok [].
Proof.
  intros Hs Hv. split; [by apply showCurrentIP_synced|].
  intros es. by rewrite (showCurrentIP_synced _ _ _ v (handle_all_synced env es w Hs) Hv).
Qed.

Lemma current_view_needs_no_lookup_witness :
  synced two_seen
  ∧ panel at_rest = Some plain_view
  ∧ (showCurrentIP sample_text two_seen at_rest).1 = Ok [].
Proof.
  assert (H1 : synced two_seen) by reflexivity.
  assert (H2 : panel at_rest = Some plain_view) by reflexivity.
  split; [exact H1|]. split; [exact H2|].
  rewrite (proj1 (current_view_needs_no_lookup host sample_text two_seen at_rest
                    plain_view H1 H2)).
  reflexivity.
Defined.

Lemma saveState_run env lay w p :
  saveState env lay (w, p)
  = match panel p with
    | Some v =>
        if parentElement v then
          let st := {| state_x := offsetLeft lay; state_y := offsetTop lay;
                       state_collapsed := classList_collapsed v;
                       state_historyView := state_historyView (currentState p) |} in
          (Ok tt,
           (set_storage (match GM_setValue_fn (backend env) with
                         | GM_works => <[STORAGE_KEY_STATE := stored_state st]> (storage w)
                         | _ => storage w
                         end) w,
            set_currentState st p))
        else (Ok tt, (w, p))
    | None => (Ok tt, (w, p))
    end.
Proof.
  unfold saveState, bind, get. simpl.
  destruct (panel p) as [v|]; [|done]. destruct (parentElement v); [|done].
  unfold on_panel, on_world, on_storage, modify. simpl.
  rewrite setStoredValue_run. simpl.
  destruct w; by destruct (GM_setValue_fn (backend env)).
Qed.

Lemma showHistory_run toText w p v :
  panel p = Some v →
  ∃ html, showHistory toText w p
          = (Ok tt, set_panel (Some (set_innerHTML html (set_color "#e06c75" v))) p).
Proof.
  intros Hv. unfold showHistory. unfold bind at 1. rewrite (on_view_run _ _ _ Hv).
  destruct (length (ipHistory w) =? 0)%nat;
    eexists; by rewrite (on_view_run _ _ (set_color "#e06c75" v)).
Qed.

Lemma showCurrentIP_run toText w p v :
  panel p = Some v →
  ∃ awaited v',
    showCurrentIP toText w p = (Ok awaited, set_panel (Some v') p)
    ∧ (v' = set_color "#98c379" v ∨ ∃ html, v' = set_innerHTML html (set_color "#98c379" v)).
Proof.
  intros Hv. unfold showCurrentIP. unfold bind at 1. rewrite (on_view_run _ _ _ Hv).
  assert (Hw : ∀ html,
    (on_view (set_innerHTML html) ;; ret (S := PanelManager) (@nil string))
      (set_panel (Some (set_color "#98c379" v)) p)
    = (Ok [], set_panel (Some (set_innerHTML html (set_color "#98c379" v))) p)).
  { intros html. unfold bind. by rewrite (on_view_run _ _ (set_color "#98c379" v)). }
  destruct (lastReportedIP w) as [a|]; [|rewrite Hw; eauto 6].
  destruct (String.eqb a ""); [rewrite Hw; eauto 6|].
  destruct (list_find _ _) as [[i e]|]; [rewrite Hw; eauto 6|].
  eexists _, _. split; [reflexivity|]. by left.
Qed.

Lemma updatePanelContent_run toText w p v :
  panel p = Some v →
  ∃ awaited v',
    not_awaited (updatePanelContent toText w) p = (Ok awaited, set_panel (Some v') p)
    ∧ ∃ v0, (v' = v0 ∨ ∃ html, v' = set_innerHTML html v0)
            ∧ v0 = set_color (if state_historyView (currentState p)
                              then "#e06c75" else "#98c379") v.
Proof.
  intros Hv. unfold updatePanelContent, not_awaited, try_catch, bind, get. rewrite Hv.
  destruct (state_historyView (currentState p)).
  - destruct (showHistory_run toText w p v Hv) as [html ->]. simpl. eauto 8.
  - destruct (showCurrentIP_run toText w p v Hv) as (aw & v' & -> & Hv'). simpl.
    eexists _, _. split; [reflexivity|]. eauto.
Qed.

Lemma saveState_ok env lay w p : panel_ok p → panel_ok (saveState env lay (w, p)).2.2.
Proof.
  intros Hok. rewrite saveState_run. destruct Hok as (v & Hv & Ht & Hc). rewrite Hv.
  destruct (parentElement v); simpl; by exists v.
Qed.

Lemma saveState_returns env lay s : (saveState env lay s).1 = Ok tt.
Proof.
  destruct s as [w p]. rewrite saveState_run.
  destruct (panel p) as [v|]; [|done]. by destruct (parentElement v).
Qed.

Ltac same_face := eexists; split; [reflexivity|]; simpl in *; by split.

Ltac update_content toText w E :=
  match type of E with
  | context [not_awaited (updatePanelContent toText w) ?q] =>
      let aw := fresh "aw" in
      let v' := fresh "v'" in
      let Hrun := fresh "Hrun" in
      let Hv' := fresh "Hv'" in
      destruct (updatePanelContent_run toText w q _ eq_refl)
        as (aw & v' & Hrun & ? & Hv' & ->);
      rewrite Hrun in E; simpl in E
  end.

Ltac save_state env lay w E :=
  match type of E with
  | context [saveState env lay (w, ?q)] =>
      let Hr := fresh "Hr" in
      let Hs := fresh "Hs" in
      pose proof (saveState_returns env lay (w, q)) as Hr;
      pose proof (saveState_ok env lay w q) as Hs;
      destruct (saveState env lay (w, q)) as [? ?];
      simpl in Hr, Hs; subst; simpl in E; injection E as <- <-;
      split; [by eexists|]; apply Hs
  end.

Lemma ui_handle_ok env toText e s :
  panel_ok s.2 →
  returns (ui_handle env toText e s).1 ∧ panel_ok (ui_handle env toText e s).2.2.
Proof.
  destruct s as [w p]. simpl. intros Hok.
  pose proof Hok as (v & Hv & Ht & Hc).
  destruct p as [pan st drag dx dy]. simpl in Hv. subst pan.
  destruct (ui_handle _ _ _ _) as [r s'] eqn:E. simpl.
  destruct e as [button cx cy lay|cx cy lay|lay|lay|lay| | |a d]; simpl in E.
  - unfold bind, on_panel, mousedown in E. case_bool_decide.
    + simpl in E. injection E as <- <-. split; [by eexists|done].
    + unfold bind, modify, the_panel, get, ret in E. simpl in E.
      injection E as <- <-. split; [by eexists|]. same_face.
  - unfold bind, on_panel, mousemove, bind, get in E. simpl in E.
    destruct drag; simpl in E; injection E as <- <-; (split; [by eexists|]);
      [same_face|done].
  - unfold mouseup, bind, get in E. simpl in E.
    destruct drag; simpl in E; [|injection E as <- <-; split; [by eexists|done]].
    save_state env lay w E. same_face.
  - unfold toggle_click, bind, on_panel, the_panel, bind, get, ret in E. simpl in E.
    save_state env lay w E. same_face.
  - unfold history_click, bind, on_panel, get, modify in E. simpl in E.
    update_content toText w E.
    save_state env lay w E.
    exists v'. split; [done|].
    destruct Hv' as [->|[html ->]]; simpl; by destruct (state_historyView st).
  - unfold refresh_tick, on_panel, bind, get in E. simpl in E.
    destruct (state_historyView st) eqn:Hh; simpl in E;
      [injection E as <- <-; split; [by eexists|done]|].
    update_content toText w E. injection E as <- <-.
    split; [by eexists|]. exists v'. split; [done|]. simpl in *. rewrite Hh in *.
    destruct Hv' as [->|[html ->]]; simpl; by split.
  - unfold on_panel in E.
    update_content toText w E. injection E as <- <-.
    split; [by eexists|]. exists v'. split; [done|]. simpl in *.
    destruct Hv' as [->|[html ->]]; simpl; by destruct (state_historyView st).
  - unfold on_panel, not_awaited, try_catch, bind, showCurrentIP_resume in E.
    destruct d as [d|]; simpl in E; injection E as <- <-;
      (split; [by eexists|]); same_face.
Qed.

(** X12. What the panel shows agrees with its state. [init] returns and
    leaves a panel whose toggle button reads [+] exactly when it is
    collapsed and whose history button has the highlight colour exactly
    in the history view; every listener and callback of such a panel
    returns and keeps it so. *)
Theorem panel_stays_consistent env toText :
  (∀ w p, returns (init toText w p).1 ∧ panel_ok (init toText w p).2)
  ∧ (∀ e s, panel_ok s.2 →
            returns (ui_handle env toText e s).1
            ∧ panel_ok (ui_handle env toText e s).2.2).
Proof.
  split; [|intros e s; apply ui_handle_ok].
  intros w p.
  destruct (init toText w p) as [r p'] eqn:E. simpl.
  unfold init, createPanel, bind at 1, modify in E.
  destruct p as [pan st drag dx dy].
  unfold set_panel at 1 in E. simpl in E.
  unfold bind at 1 in E.
  match type of E with
  | context [applyState toText w ?q] =>
      assert (Ha : ∃ aw v', applyState toText w q = (Ok aw, set_panel (Some v') q)
                ∧ panel_ok (set_panel (Some v') q))
  end.
  { unfold applyState, bind at 1 2 3, get. simpl.
    destruct (state_historyView st) eqn:Hh.
    - unfold bind.
      match goal with |- context [showHistory toText w ?q] =>
        destruct (showHistory_run toText w q _ eq_refl) as [html ->] end.
      simpl. eexists _, _. split; [reflexivity|].
      eexists. split; [reflexivity|]. simpl. by rewrite Hh.
    - unfold not_awaited, try_catch.
      match goal with |- context [showCurrentIP toText w ?q] =>
        destruct (showCurrentIP_run toText w q _ eq_refl) as (aw & v' & -> & Hv') end.
      simpl. eexists _, _. split; [reflexivity|].
      eexists. split; [reflexivity|]. simpl. rewrite Hh.
      by destruct Hv' as [->|[html ->]]. }
  destruct Ha as (aw & v' & Ha & Hok). rewrite Ha in E. unfold bind in E.
  destruct Hok as (v0 & Hv0 & Ht & Hc).
  match type of E with
  | context [not_awaited (updatePanelContent toText w) ?q] =>
      destruct (updatePanelContent_run toText w q _ Hv0)
        as (aw2 & v2 & Hrun & v3 & Hv2 & ->);
      rewrite Hrun in E
  end.
  injection E as <- <-. split; [by eexists|].
  exists v2. split; [done|]. simpl in *.
  destruct Hv2 as [->|[html ->]]; simpl; by destruct (state_historyView st).
Qed.

Lemma panel_stays_consistent_witness :
  panel_ok at_rest
  ∧ panel_ok (ui_handle host sample_text (UiToggle viewport) (blank, at_rest)).2.2.
Proof.
  assert (H : panel_ok at_rest).
  { exists plain_view. split; [reflexivity|]. split; reflexivity. }
  split; [exact H|].
  exact (proj2 (proj2 (panel_stays_consistent host sample_text)
                  (UiToggle viewport) (blank, at_rest) H)).
Defined.

Lemma set_storage_same w : set_storage (storage w) w = w.
Proof. by destruct w. Qed.

Lemma state_only_ret {A} (a : A) : state_only (ret a).
Proof. intros [w p]. exists (storage w). simpl. by rewrite set_storage_same. Qed.

Lemma state_only_get : state_only get.
Proof. intros [w p]. exists (storage w). simpl. by rewrite set_storage_same. Qed.

Lemma state_only_on_panel {A} (m : World → M PanelManager A) : state_only (on_panel m).
Proof.
  intros [w p]. exists (storage w). unfold on_panel.
  destruct (m w p). simpl. by rewrite set_storage_same.
Qed.

Lemma state_only_bind {A B} (m : M (World * PanelManager) A)
    (f : A → M (World * PanelManager) B) :
  state_only m → (∀ a, state_only (f a)) → state_only (bind m f).
Proof.
  intros Hm Hf s. unfold bind. destruct (Hm s) as (st1 & H1 & K1).
  destruct (m s) as [[a|e] s1]; simpl in *; [|by exists st1].
  destruct (Hf a s1) as (st2 & H2 & K2). exists st2. rewrite H2, H1. split; [done|].
  intros k Hk. rewrite K2 by done. rewrite H1. simpl. by apply K1.
Qed.

Lemma state_only_saveState env lay : state_only (saveState env lay).
Proof.
  intros [w p]. rewrite saveState_run.
  destruct (panel p) as [v|];
    [|exists (storage w); simpl; by rewrite set_storage_same].
  destruct (parentElement v);
    [|exists (storage w); simpl; by rewrite set_storage_same].
  simpl. eexists. split; [reflexivity|]. intros k Hk.
  destruct (GM_setValue_fn (backend env)); [done..|].
  by rewrite lookup_insert_ne.
Qed.

Lemma state_only_ui_handle env toText e : state_only (ui_handle env toText e).
Proof.
  destruct e; simpl;
    unfold mouseup, toggle_click, history_click, refresh_tick;
    repeat first
      [ apply state_only_on_panel | apply state_only_saveState
      | apply state_only_ret | apply state_only_get
      | apply state_only_bind; [|intros ?]
      | match goal with |- state_only (if ?b then _ else _) => destruct b end ].
Qed.

Lemma new_GeolocationService_run env store :
  new_GeolocationService env store
  = (Ok (as_history (match GM_getValue_fn (backend env) with
                     | GM_works => default (StHistory []) (store !! STORAGE_KEY_HISTORY)
                     | _ => StHistory []
                     end),
         as_address (match GM_getValue_fn (backend env) with
                     | GM_works => default StNull (store !! STORAGE_KEY_IP)
                     | _ => StNull
                     end)), store).
Proof.
  unfold new_GeolocationService, bind, ret. by rewrite !getStoredValue_stored.
Qed.

(** X13. The panel never writes what the service owns: a listener or
    callback of the panel leaves the ledger, the last reported address
    and the session set as they are, changes the storage under
    [STORAGE_KEY_STATE] at most, and so leaves what the next page load
    builds its service from. *)
Theorem ui_keeps_service env toText e s :
  ipHistory (ui_handle env toText e s).2.1 = ipHistory s.1
  ∧ lastReportedIP (ui_handle env toText e s).2.1 = lastReportedIP s.1
  ∧ detectedIps (ui_handle env toText e s).2.1 = detectedIps s.1
  ∧ (∀ k, k ≠ STORAGE_KEY_STATE →
          storage (ui_handle env toText e s).2.1 !! k = storage s.1 !! k)
  ∧ (new_GeolocationService env (storage (ui_handle env toText e s).2.1)).1
    = (new_GeolocationService env (storage s.1)).1.
Proof.
  destruct (state_only_ui_handle env toText e s) as (store' & -> & K).
  simpl. repeat split; [done|].
  rewrite !new_GeolocationService_run. simpl.
  by rewrite !K by done.
Qed.

(** X14. With working storage functions, what [saveState] saves of an
    attached panel is what the next page load starts from: the position
    the browser reports, whether the panel is collapsed, and the view. *)
Theorem panel_state_survives_reload env lay width w p v :
  GM_getValue_fn (backend env) = GM_works →
  GM_setValue_fn (backend env) = GM_works →
  panel p = Some v →
  parentElement v = true →
  currentState (saveState env lay (w, p)).2.2
  = {| state_x := offsetLeft lay; state_y := offsetTop lay;
       state_collapsed := classList_collapsed v;
       state_historyView := state_historyView (currentState p) |}
  ∧ (new_PanelManager env width (storage (saveState env lay (w, p)).2.1)).1
    = Ok {| panel := None;
            currentState := currentState (saveState env lay (w, p)).2.2;
            isDragging := false; dragOffsetX := 0; dragOffsetY := 0 |}.
Proof.
  intros Hget Hset Hv Hattached. rewrite saveState_run, Hv, Hattached, Hset. simpl.
  split; [done|].
  unfold new_PanelManager, bind, ret. rewrite getStoredValue_stored, Hget. simpl.
  by rewrite lookup_insert_eq.
Qed.

Lemma panel_state_survives_reload_witness :
  GM_getValue_fn (backend host) = GM_works
  ∧ GM_setValue_fn (backend host) = GM_works
  ∧ panel at_rest = Some plain_view
  ∧ parentElement plain_view = true
  ∧ (new_PanelManager host 1280
       (storage (saveState host viewport (blank, set_isDragging true at_rest)).2.1)).1
    = Ok at_start.
Proof.
  assert (H1 : GM_getValue_fn (backend host) = GM_works) by reflexivity.
  assert (H2 : GM_setValue_fn (backend host) = GM_works) by reflexivity.
  assert (H3 : panel (set_isDragging true at_rest) = Some plain_view) by reflexivity.
  assert (H4 : parentElement plain_view = true) by reflexivity.
  split; [exact H1|]. split; [exact H2|]. split; [exact H3|]. split; [exact H4|].
  exact (proj2 (panel_state_survives_reload host viewport 1280 blank
                  (set_isDragging true at_rest) plain_view H1 H2 H3 H4)).
Defined.

(** X15. Dragging keeps the panel in the window. After a left button
    press on the header and a move of the pointer the panel has a
    position that is not negative; where the panel fits in the window it
    does not reach beyond the right and the lower edge; and where the
    position that follows the pointer is inside these bounds, it is the
    position the panel gets. After the release a move of the pointer
    changes nothing. *)
Theorem drag_stays_in_window p v x0 y0 lay0 x1 y1 lay :
  panel p = Some v →
  ∃ v2 left top,
    panel (mousemove x1 y1 lay (mousedown 0 x0 y0 lay0 p).2).2 = Some v2
    ∧ style_left v2 = Some left ∧ style_top v2 = Some top
    ∧ (0 ≤ left)%Z ∧ (0 ≤ top)%Z
    ∧ ((offsetWidth lay ≤ innerWidth lay)%Z →
       (left + offsetWidth lay ≤ innerWidth lay)%Z)
    ∧ ((offsetHeight lay ≤ innerHeight lay)%Z →
       (top + offsetHeight lay ≤ innerHeight lay)%Z)
    ∧ ((0 ≤ offsetLeft lay0 + (x1 - x0) ≤ innerWidth lay - offsetWidth lay)%Z →
       left = (offsetLeft lay0 + (x1 - x0))%Z)
    ∧ ((0 ≤ offsetTop lay0 + (y1 - y0) ≤ innerHeight lay - offsetHeight lay)%Z →
       top = (offsetTop lay0 + (y1 - y0))%Z)
    ∧ ∀ env w lay2 x2 y2 lay3,
        let released :=
          (mouseup env lay2 (w, (mousemove x1 y1 lay (mousedown 0 x0 y0 lay0 p).2).2)).2.2 in
        mousemove x2 y2 lay3 released = (Ok tt, released).
Proof.
  intros Hv. destruct p as [pan st drag dx dy]. simpl in Hv. subst pan.
  unfold mousedown. simpl.
  unfold bind, modify, the_panel, get, ret, on_view, bind, the_panel, get, ret, modify.
  simpl. unfold mousemove, bind, get. simpl.
  unfold the_panel, on_view, bind, the_panel, get, ret, modify. simpl.
  eexists _, _, _. split; [reflexivity|]. split; [reflexivity|]. split; [reflexivity|].
  repeat split; try lia.
  intros env w lay2 x2 y2 lay3. unfold mouseup, bind, get. simpl.
  unfold on_panel, bind, modify, on_view, the_panel, bind, get, ret, modify. simpl.
  rewrite saveState_run. simpl. by destruct (parentElement v).
Qed.

Lemma drag_stays_in_window_witness :
  panel at_rest = Some plain_view
  ∧ ∃ v2, panel (mousemove 500 300 viewport (mousedown 0 100 20 viewport at_rest).2).2
          = Some v2
          ∧ style_left v2 = Some 440%Z ∧ style_top v2 = Some 290%Z.
Proof.
  assert (H : panel at_rest = Some plain_view) by reflexivity.
  split; [exact H|].
  destruct (drag_stays_in_window at_rest plain_view 100 20 viewport 500 300 viewport H)
    as (v2 & left & top & Hp & Hl & Ht & _ & _ & _ & _ & Hx & Hy & _).
  exists v2. split; [exact Hp|]. rewrite Hl, Ht.
  rewrite Hx by (simpl; lia). rewrite Hy by (simpl; lia). split; reflexivity.
Defined.
